(** * Hindi typing platform: key resolution, layout registry and typing engine

    A shallow embedding of the resolver ([utils/keyboardMapper]), the layout
    tables ([data/keyboardMappings.ts]), the layout context
    ([contexts/KeyboardLayoutContext]) and the typing engine hook
    ([hooks/useTypingEngine]), together with the properties of the
    specification that concern them. *)

From Stdlib Require Import String Ascii NArith ZArith QArith List Bool Lia Permutation Sorted.
From stdpp Require Import base decidable list strings.
Import ListNotations.

Local Open Scope string_scope.
Local Open Scope list_scope.
Local Open Scope N_scope.

(** ** JavaScript strings

    A JavaScript string is a sequence of UTF-16 code units: [s.length] counts
    code units, [s[i]] is the i-th code unit and [===] compares the
    sequences.  Physical key identifiers ([KeyboardEvent.code] values such as
    [KeyE]) are pure ASCII and are kept as [string]; every string that holds
    text is a [jsstring]. *)

Definition jsstring : Type := list N.

Definition jsstring_eqb (a b : jsstring) : bool := bool_decide (a = b).

(** [s[i]]: the code unit at index [i], [None] for JavaScript's [undefined]. *)
Definition charAt (s : jsstring) (i : nat) : option N := nth_error s i.

(** The literals of the layout tables are written here as they are in the
    TypeScript source, in UTF-8; [u] decodes such a literal into the UTF-16 code
    units the JavaScript engine holds for it. *)
Fixpoint utf16_of_utf8 (bs : list N) : jsstring :=
  match bs with
  | [] => []
  | b0 :: r0 =>
    if b0 <? 0x80 then b0 :: utf16_of_utf8 r0
    else match r0 with
    | [] => [0xFFFD]
    | b1 :: r1 =>
      if b0 <? 0xE0 then
        N.lor (N.shiftl (N.land b0 0x1F) 6) (N.land b1 0x3F) :: utf16_of_utf8 r1
      else match r1 with
      | [] => [0xFFFD]
      | b2 :: r2 =>
        if b0 <? 0xF0 then
          N.lor (N.shiftl (N.land b0 0x0F) 12)
            (N.lor (N.shiftl (N.land b1 0x3F) 6) (N.land b2 0x3F))
            :: utf16_of_utf8 r2
        else match r2 with
        | [] => [0xFFFD]
        | b3 :: r3 =>
          let cp :=
            N.lor (N.shiftl (N.land b0 0x07) 18)
              (N.lor (N.shiftl (N.land b1 0x3F) 12)
                 (N.lor (N.shiftl (N.land b2 0x3F) 6) (N.land b3 0x3F))) in
          let v := cp - 0x10000 in
          (0xD800 + N.shiftr v 10) :: (0xDC00 + N.land v 0x3FF)
            :: utf16_of_utf8 r3
        end
      end
    end
  end.

Definition u (s : string) : jsstring :=
  utf16_of_utf8 (List.map N_of_ascii (list_ascii_of_string s)).

(** ** Data model

    The types of [types/keyboard.types], as the layout tables and the
    resolver use them.  [ModifierState] is the union of the four strings
    ['normal'], ['shift'], ['altgr'] and ['altgr-shift']. *)

Inductive ModifierState : Type := Normal | Shift | AltGr | AltGrShift.

Global Instance ModifierState_eq_dec : EqDecision ModifierState.
Proof. solve_decision. Defined.

Inductive Hand : Type := LeftHand | RightHand.

Global Instance Hand_eq_dec : EqDecision Hand.
Proof. solve_decision. Defined.

Record KeyMapping : Type := KM {
  key : string;
  normal : jsstring;
  shift : jsstring;
  altgr : jsstring;
  altgrShift : jsstring;
  finger : nat;
  hand : Hand;
  label : string
}.

Global Instance KeyMapping_eq_dec : EqDecision KeyMapping.
Proof. solve_decision. Defined.

Record ModifierGroups : Type := {
  mod_shift : list string;
  mod_altgr : list string
}.

Record KeyboardLayout : Type := {
  name : string;
  description : string;
  modifiers : ModifierGroups;
  rows : list (list KeyMapping)
}.

(** ** The layout tables ([data/keyboardMappings.ts]) *)

Definition backslash : string := String (ascii_of_N 92) EmptyString.

Definition REMINGTON_GAIL_rows : list (list KeyMapping) :=
  [
  [ (* Number row *)
    KM "Backquote" (u "़") (u "द्य") [0x200c] [0x200d] 0 LeftHand "`";
    KM "Digit1" (u "1") (u "।") (u "१") (u "ङ") 0 LeftHand "1";
    KM "Digit2" (u "2") (u "/") (u "२") (u "घ") 1 LeftHand "2";
    KM "Digit3" (u "3") (u "ः") (u "३") (u "ह्न") 2 LeftHand "3";
    KM "Digit4" (u "4") (u "*") (u "४") (u "ह्य") 3 LeftHand "4";
    KM "Digit5" (u "5") (u "-") (u "५") (u "%") 3 LeftHand "5";
    KM "Digit6" (u "6") [0x2018] (u "६") (u "ह्म") 4 RightHand "6";
    KM "Digit7" (u "7") [0x2019] (u "७") (u "÷") 4 RightHand "7";
    KM "Digit8" (u "8") (u "द्ध") (u "८") (u "×") 5 RightHand "8";
    KM "Digit9" (u "9") (u "त्र") (u "९") (u "द्ग") 6 RightHand "9";
    KM "Digit0" (u "0") (u "ऋ") (u "०") (u "!") 7 RightHand "0";
    KM "Minus" (u ";") (u ".") (u "ञ") (u "ञ्") 7 RightHand "-";
    KM "Equal" (u "ृ") (u "्") (u "+") (u "=") 7 RightHand "=";
    KM "Backspace" [] [] [] [] 7 RightHand "Backspace" ];
  [ (* Top row (QWERTY) *)
    KM "Tab" [] [] [] [] 0 LeftHand "Tab";
    KM "KeyQ" (u "ु") (u "फ") (u "फ्") (u "झ्र") 0 LeftHand "Q";
    KM "KeyW" (u "ू") (u "ॅ") (u "ॄ") (u "ॠ") 1 LeftHand "W";
    KM "KeyE" (u "म") (u "म्") (u "ें") (u "ैं") 2 LeftHand "E";
    KM "KeyR" (u "त") (u "त्") (u "त्त") (u "त्त्") 3 LeftHand "R";
    KM "KeyT" (u "ज") (u "ज्") (u "ज्र") (u "त्र्") 3 LeftHand "T";
    KM "KeyY" (u "ल") (u "ल्") (u "द्द") (u "द्भ") 4 RightHand "Y";
    KM "KeyU" (u "न") (u "न्") (u "फ़") (u "न्न") 4 RightHand "U";
    KM "KeyI" (u "प") (u "प्") (u "फ") (u "प्र") 5 RightHand "I";
    KM "KeyO" (u "व") (u "व्") (u "व्न") (u "व्र") 6 RightHand "O";
    KM "KeyP" (u "च") (u "च्") (u "श") (u "ढ़") 7 RightHand "P";
    KM "BracketLeft" (u "ख्") (u "क्ष्") (u "ख") (u "क्ष") 7 RightHand "[";
    KM "BracketRight" (u ",") (u "द्व") (u "द्ध") (u "द्ब") 7 RightHand "]";
    KM "Backslash" (u "(") (u ")") (u "ऽ") (u "ॐ") 7 RightHand backslash ];
  [ (* Home row (ASDFGHJKL) *)
    KM "CapsLock" [] [] [] [] 0 LeftHand "Caps";
    KM "KeyA" (u "ं") (u "ा") (u "ह्ण") (u "ख़") 0 LeftHand "A";
    KM "KeyS" (u "े") (u "ै") (u "भ") (u "ष्ट") 1 LeftHand "S";
    KM "KeyD" (u "क") (u "क्") (u "ध") (u "ष्ठ") 2 LeftHand "D";
    KM "KeyF" (u "ि") (u "थ्") (u "य्") (u "थ") 3 LeftHand "F";
    KM "KeyG" (u "ह") (u "ळ") (u "घ") (u "ग्र") 3 LeftHand "G";
    KM "KeyH" (u "ी") (u "भ्") (u "ीं") (u "ञ्च") 4 RightHand "H";
    KM "KeyJ" (u "र") (u "श्र") (u "र्" ++ [0x200d]) (u "श्") 4 RightHand "J";
    KM "KeyK" (u "ा") (u "ज्ञ") (u "्य") (u "ज्ञ्") 5 RightHand "K";
    KM "KeyL" (u "स") (u "स्") (u "स्त्र") (u "स्र") 6 RightHand "L";
    KM "Semicolon" (u "य") (u "रू") (u ";") (u "ञ्ज") 7 RightHand ";";
    KM "Quote" (u "श्") (u "ष्") (u "श") (u "ष") 7 RightHand "'";
    KM "Enter" [] [] [] [] 7 RightHand "Enter" ];
  [ (* Bottom row (ZXCVBNM) *)
    KM "ShiftLeft" [] [] [] [] 0 LeftHand "Shift";
    KM "KeyZ" (u "्र") (u "र्") (u "ो") (u "ौ") 0 LeftHand "Z";
    KM "KeyX" (u "ग") (u "ग्") (u "द्र") (u "ग़") 1 LeftHand "X";
    KM "KeyC" (u "ब") (u "ब्") (u "ड़") (u "ज़") 2 LeftHand "C";
    KM "KeyV" (u "अ") (u "ट") (u "ट्") (u "ट्ट") 3 LeftHand "V";
    KM "KeyB" (u "इ") (u "ठ") (u "ई") (u "ईं") 3 LeftHand "B";
    KM "KeyN" (u "द") (u "छ") (u "ण") (u "द्म") 4 RightHand "N";
    KM "KeyM" (u "उ") (u "ड") (u "ऊ") (u "ड्ड") 4 RightHand "M";
    KM "Comma" (u "ए") (u "ढ") (u "ँ") (u "ढ्ढ") 5 RightHand ",";
    KM "Period" (u "ण्") (u "झ") (u ".") (u "झ्") 6 RightHand ".";
    KM "Slash" (u "ध्") (u "घ्") (u "/") (u "?") 7 RightHand "/";
    KM "ShiftRight" [] [] [] [] 7 RightHand "Shift" ];
  [ (* Space bar *)
    KM "ControlLeft" [] [] [] [] 0 LeftHand "Ctrl";
    KM "AltLeft" [] [] [] [] 0 LeftHand "Alt";
    KM "Space" (u " ") (u " ") (u " ") (u " ") 4 LeftHand "Space";
    KM "AltRight" [] [] [] [] 7 RightHand "Alt";
    KM "ControlRight" [] [] [] [] 7 RightHand "Ctrl" ]
  ].

Definition INSCRIPT_rows : list (list KeyMapping) :=
  [
  [ (* Number row *)
    KM "Backquote" (u "ॊ") (u "ऒ") [] [] 0 LeftHand "`";
    KM "Digit1" (u "१") (u "ऍ") [] [] 0 LeftHand "1";
    KM "Digit2" (u "२") (u "ॅ") [] [] 1 LeftHand "2";
    KM "Digit3" (u "३") (u "्र") [] [] 2 LeftHand "3";
    KM "Digit4" (u "४") (u "र्") [] [] 3 LeftHand "4";
    KM "Digit5" (u "५") (u "ज्ञ") [] [] 3 LeftHand "5";
    KM "Digit6" (u "६") (u "त्र") [] [] 4 RightHand "6";
    KM "Digit7" (u "७") (u "क्ष") [] [] 4 RightHand "7";
    KM "Digit8" (u "८") (u "श्र") [] [] 5 RightHand "8";
    KM "Digit9" (u "९") (u "(") [] [] 6 RightHand "9";
    KM "Digit0" (u "०") (u ")") [] [] 7 RightHand "0";
    KM "Minus" (u "-") (u "ः") [] [] 7 RightHand "-";
    KM "Equal" (u "ृ") (u "ऋ") [] [] 7 RightHand "=";
    KM "Backspace" [] [] [] [] 7 RightHand "Backspace" ];
  [ (* Top row (QWERTY) *)
    KM "Tab" [] [] [] [] 0 LeftHand "Tab";
    KM "KeyQ" (u "ौ") (u "औ") [] [] 0 LeftHand "Q";
    KM "KeyW" (u "ै") (u "ऐ") [] [] 1 LeftHand "W";
    KM "KeyE" (u "ा") (u "आ") [] [] 2 LeftHand "E";
    KM "KeyR" (u "ी") (u "ई") [] [] 3 LeftHand "R";
    KM "KeyT" (u "ू") (u "ऊ") [] [] 3 LeftHand "T";
    KM "KeyY" (u "ब") (u "भ") [] [] 4 RightHand "Y";
    KM "KeyU" (u "ह") (u "ङ") [] [] 4 RightHand "U";
    KM "KeyI" (u "ग") (u "घ") [] [] 5 RightHand "I";
    KM "KeyO" (u "द") (u "ध") [] [] 6 RightHand "O";
    KM "KeyP" (u "ज") (u "झ") [] [] 7 RightHand "P";
    KM "BracketLeft" (u "ड") (u "ढ") [] [] 7 RightHand "[";
    KM "BracketRight" [] (u "ञ") [] [] 7 RightHand "]";
    KM "Backslash" [] [] [] [] 7 RightHand backslash ];
  [ (* Home row (ASDFGHJKL) *)
    KM "CapsLock" [] [] [] [] 0 LeftHand "Caps";
    KM "KeyA" (u "ो") (u "ओ") [] [] 0 LeftHand "A";
    KM "KeyS" (u "े") (u "ए") [] [] 1 LeftHand "S";
    KM "KeyD" (u "्") (u "अ") [] [] 2 LeftHand "D";
    KM "KeyF" (u "ि") (u "इ") [] [] 3 LeftHand "F";
    KM "KeyG" (u "ु") (u "उ") [] [] 3 LeftHand "G";
    KM "KeyH" (u "प") (u "फ") [] [] 4 RightHand "H";
    KM "KeyJ" (u "र") (u "ऱ") [] [] 4 RightHand "J";
    KM "KeyK" (u "क") (u "ख") [] [] 5 RightHand "K";
    KM "KeyL" (u "त") (u "थ") [] [] 6 RightHand "L";
    KM "Semicolon" (u "च") (u "छ") [] [] 7 RightHand ";";
    KM "Quote" (u "ट") (u "ठ") [] [] 7 RightHand "'";
    KM "Enter" [] [] [] [] 7 RightHand "Enter" ];
  [ (* Bottom row (ZXCVBNM) *)
    KM "ShiftLeft" [] [] [] [] 0 LeftHand "Shift";
    KM "KeyZ" (u "ॉ") (u "ऑ") [] [] 0 LeftHand "Z";
    KM "KeyX" (u "ं") (u "ँ") [] [] 1 LeftHand "X";
    KM "KeyC" (u "म") (u "ण") [] [] 2 LeftHand "C";
    KM "KeyV" (u "न") (u "ऩ") [] [] 3 LeftHand "V";
    KM "KeyB" (u "व") (u "ऴ") [] [] 3 LeftHand "B";
    KM "KeyN" (u "ल") (u "ळ") [] [] 4 RightHand "N";
    KM "KeyM" (u "स") (u "श") [] [] 4 RightHand "M";
    KM "Comma" (u ",") (u "ष") [] [] 5 RightHand ",";
    KM "Period" (u "।") (u "॥") [] [] 6 RightHand ".";
    KM "Slash" (u "य") (u "य़") [] [] 7 RightHand "/";
    KM "ShiftRight" [] [] [] [] 7 RightHand "Shift" ];
  [ (* Space bar *)
    KM "ControlLeft" [] [] [] [] 0 LeftHand "Ctrl";
    KM "AltLeft" [] [] [] [] 0 LeftHand "Alt";
    KM "Space" (u " ") (u " ") [] [] 4 LeftHand "Space";
    KM "AltRight" [] [] [] [] 7 RightHand "Alt";
    KM "ControlRight" [] [] [] [] 7 RightHand "Ctrl" ]
  ].
Definition REMINGTON_GAIL_LAYOUT : KeyboardLayout := {|
  name := "Remington GAIL";
  description := "Remington-GAIL typewriter layout for Unicode Devanagari input";
  modifiers := {| mod_shift := ["ShiftLeft"; "ShiftRight"]; mod_altgr := ["AltRight"] |};
  rows := REMINGTON_GAIL_rows
|}.

Definition INSCRIPT_LAYOUT : KeyboardLayout := {|
  name := "INSCRIPT";
  description := "Government of India standard layout for Devanagari input";
  modifiers := {| mod_shift := ["ShiftLeft"; "ShiftRight"]; mod_altgr := [] |};
  rows := INSCRIPT_rows
|}.

(** ** JavaScript [Map]

    A [Map] keeps its entries in insertion order; [set] on a key that is
    already present replaces the value and keeps the position. *)

Section JsMap.
Context {V : Type}.

Definition JsMap : Type := list (string * V).

Fixpoint Map_set (m : JsMap) (k : string) (v : V) : JsMap :=
  match m with
  | [] => [(k, v)]
  | (k', v') :: r =>
    if String.eqb k' k then (k', v) :: r else (k', v') :: Map_set r k v
  end.

(** [new Map(entries)] *)
Definition Map_new (entries : list (string * V)) : JsMap :=
  fold_left (fun m e => Map_set m (fst e) (snd e)) entries [].

Fixpoint Map_get (m : JsMap) (k : string) : option V :=
  match m with
  | [] => None
  | (k', v') :: r => if String.eqb k' k then Some v' else Map_get r k
  end.

Definition Map_has (m : JsMap) (k : string) : bool :=
  match Map_get m k with Some _ => true | None => false end.

Definition Map_values (m : JsMap) : list V := List.map snd m.
End JsMap.

Arguments JsMap : clear implicits.

(** [new Map(layout.rows.flat().map((k) => [k.key, k]))] *)
Definition keyMapOf (layout : KeyboardLayout) : JsMap KeyMapping :=
  Map_new (List.map (fun k => (key k, k)) (concat (rows layout))).

Definition KEY_MAP : JsMap KeyMapping := keyMapOf REMINGTON_GAIL_LAYOUT.
Definition INSCRIPT_KEY_MAP : JsMap KeyMapping := keyMapOf INSCRIPT_LAYOUT.

(** ** The resolver ([utils/keyboardMapper]) *)

(** The field of a mapping that a modifier state selects (the [switch] of
    [getCharacterForKey]). *)
Definition slot (keyMapping : KeyMapping) (modifierState : ModifierState) : jsstring :=
  match modifierState with
  | Shift => shift keyMapping
  | AltGr => altgr keyMapping
  | AltGrShift => altgrShift keyMapping
  | Normal => normal keyMapping
  end.

Definition isModifierKey (key : string) : bool :=
  String.eqb key "ShiftLeft" ||
  String.eqb key "ShiftRight" ||
  String.eqb key "AltRight" ||
  String.eqb key "ControlLeft" ||
  String.eqb key "ControlRight" ||
  String.eqb key "AltLeft" ||
  String.eqb key "MetaLeft" ||
  String.eqb key "MetaRight".

(** An element of the array [findKeysForCharacter] returns. *)
Record KeyHit : Type := {
  hit_key : string;
  hit_modifierState : ModifierState;
  hit_keyMapping : KeyMapping
}.

Global Instance KeyHit_eq_dec : EqDecision KeyHit.
Proof. solve_decision. Defined.

(** ** JavaScript [Set]

    A [Set<string>] keeps its elements in insertion order, each once. *)
Definition JsSet : Type := list string.

Definition Set_has (s : JsSet) (k : string) : bool := existsb (String.eqb k) s.

Definition Set_add (s : JsSet) (k : string) : JsSet :=
  if Set_has s k then s else s ++ [k].

(** [new Set(keys)] *)
Definition Set_new (keys : list string) : JsSet := fold_left Set_add keys [].

(** The functions of [useKeyboardMapper], bound to the key map of the layout
    in the context. *)
Module Mapper.
Section WithKeyMap.
Variable keyMap : JsMap KeyMapping.

Definition getCharacterForKey (key : string) (modifierState : ModifierState) : jsstring :=
  match Map_get keyMap key with
  | None => []
  | Some keyMapping => slot keyMapping modifierState
  end.

Definition findKeyMapping (key : string) : option KeyMapping := Map_get keyMap key.

Definition getModifierState (pressedKeys : JsSet) : ModifierState :=
  let hasShift := Set_has pressedKeys "ShiftLeft" || Set_has pressedKeys "ShiftRight" in
  let hasAltGr := Set_has pressedKeys "AltRight" in
  if hasShift && hasAltGr then AltGrShift
  else if hasAltGr then AltGr
  else if hasShift then Shift
  else Normal.

Definition isTypeableKey (key : string) : bool :=
  if isModifierKey key then false
  else if String.eqb key "Backspace" || String.eqb key "Enter" ||
          String.eqb key "Tab" || String.eqb key "Escape" then false
  else Map_has keyMap key.

Definition getAllCharactersForKey (key : string) : list jsstring :=
  match Map_get keyMap key with
  | None => []
  | Some keyMapping =>
    List.filter (fun char => negb (jsstring_eqb char []))
      [normal keyMapping; shift keyMapping; altgr keyMapping; altgrShift keyMapping]
  end.

(** What one iteration of the loop of [findKeysForCharacter] pushes. *)
Definition hitsOf (character : jsstring) (keyMapping : KeyMapping) : list KeyHit :=
  (if jsstring_eqb (normal keyMapping) character
   then [{| hit_key := key keyMapping; hit_modifierState := Normal; hit_keyMapping := keyMapping |}]
   else []) ++
  (if jsstring_eqb (shift keyMapping) character
   then [{| hit_key := key keyMapping; hit_modifierState := Shift; hit_keyMapping := keyMapping |}]
   else []) ++
  (if jsstring_eqb (altgr keyMapping) character
   then [{| hit_key := key keyMapping; hit_modifierState := AltGr; hit_keyMapping := keyMapping |}]
   else []) ++
  (if jsstring_eqb (altgrShift keyMapping) character
   then [{| hit_key := key keyMapping; hit_modifierState := AltGrShift; hit_keyMapping := keyMapping |}]
   else []).

Definition findKeysForCharacter (character : jsstring) : list KeyHit :=
  fold_left (fun results keyMapping => results ++ hitsOf character keyMapping)
    (Map_values keyMap) [].

Definition isValidKeyCombination (key : string) (modifierState : ModifierState) : bool :=
  negb (jsstring_eqb (getCharacterForKey key modifierState) []).
End WithKeyMap.
End Mapper.

(** The standalone functions of the module read [KEY_MAP], the key map of the
    Remington GAIL layout. *)
Definition getCharacterForKey : string -> ModifierState -> jsstring :=
  Mapper.getCharacterForKey KEY_MAP.
Definition findKeyMapping : string -> option KeyMapping := Mapper.findKeyMapping KEY_MAP.
Definition getModifierState : JsSet -> ModifierState := Mapper.getModifierState.
Definition isTypeableKey : string -> bool := Mapper.isTypeableKey KEY_MAP.
Definition getAllCharactersForKey : string -> list jsstring :=
  Mapper.getAllCharactersForKey KEY_MAP.
Definition findKeysForCharacter : jsstring -> list KeyHit :=
  Mapper.findKeysForCharacter KEY_MAP.
Definition isValidKeyCombination : string -> ModifierState -> bool :=
  Mapper.isValidKeyCombination KEY_MAP.

(** ** The text normalizer ([utils/hindiUtils]) *)

(** Modelled from the spec: the data of the canonical pass of
    [normalizeHindiText], which is not among the sources.  These are the
    canonical decompositions of the Devanagari block: the three nukta letters
    that compose and the eight that are excluded from composition. *)
Definition DECOMPOSITIONS : list (N * (N * N)) :=
  [ (0x929, (0x928, 0x93C));   (* NNNA = NA + nukta *)
    (0x931, (0x930, 0x93C));   (* RRA  = RA + nukta *)
    (0x934, (0x933, 0x93C));   (* LLLA = LLA + nukta *)
    (0x958, (0x915, 0x93C));   (* QA   = KA + nukta *)
    (0x959, (0x916, 0x93C));   (* KHHA = KHA + nukta *)
    (0x95A, (0x917, 0x93C));   (* GHHA = GA + nukta *)
    (0x95B, (0x91C, 0x93C));   (* ZA   = JA + nukta *)
    (0x95C, (0x921, 0x93C));   (* DDDHA = DDA + nukta *)
    (0x95D, (0x922, 0x93C));   (* RHA  = DDHA + nukta *)
    (0x95E, (0x92B, 0x93C));   (* FA   = PHA + nukta *)
    (0x95F, (0x92F, 0x93C)) ]. (* YYA  = YA + nukta *)

(** Modelled from the spec: the letters among them that canonical composition
    puts back (the others are composition exclusions). *)
Definition COMPOSITIONS : list (N * (N * N)) :=
  [ (0x929, (0x928, 0x93C)); (0x931, (0x930, 0x93C)); (0x934, (0x933, 0x93C)) ].

(** Modelled from the spec: the canonical combining classes of the block
    that are not zero. *)
Definition COMBINING_CLASSES : list (N * N) :=
  [ (0x93C, 7);     (* nukta *)
    (0x94D, 9);     (* virama *)
    (0x951, 230);   (* udatta *)
    (0x952, 220);   (* anudatta *)
    (0x953, 230);   (* grave accent *)
    (0x954, 230) ]. (* acute accent *)

Fixpoint assoc {A : Type} (c : N) (t : list (N * A)) : option A :=
  match t with
  | [] => None
  | (c', a) :: r => if c' =? c then Some a else assoc c r
  end.

(** Modelled from the spec: the combining class of a code unit, zero for a
    starter. *)
Definition ccc (c : N) : N :=
  match assoc c COMBINING_CLASSES with Some n => n | None => 0 end.

(** Modelled from the spec: canonical decomposition, of a code unit and of a
    string. *)
Definition canonicalDecomposition (c : N) : list N :=
  match assoc c DECOMPOSITIONS with Some (a, b) => [a; b] | None => [c] end.

Definition decompose (s : jsstring) : jsstring := flat_map canonicalDecomposition s.

(** Modelled from the spec: in canonical order the mark [c] may not stand
    after [p]. *)
Definition inverted (c p : N) : bool := (0 <? ccc c) && (ccc c <? ccc p).

(** Modelled from the spec: canonical ordering.  A mark moves left over the
    marks of a higher class that precede it, never over a starter.
    [insertMark c before] works on the reversed prefix. *)
Fixpoint insertMark (c : N) (before : list N) : list N :=
  match before with
  | [] => [c]
  | p :: r => if inverted c p then p :: insertMark c r else c :: before
  end.

Definition placeAll (s : jsstring) (before : list N) : list N :=
  fold_left (fun before c => insertMark c before) s before.

Definition canonicalOrder (s : jsstring) : jsstring := rev (placeAll s []).

(** Modelled from the spec: the letter that [a] followed by [b] composes to. *)
Definition primaryComposite (a b : N) : option N :=
  fst <$> List.find (fun e => (fst (snd e) =? a) && (snd (snd e) =? b)) COMPOSITIONS.

(** Modelled from the spec: canonical composition.  In a decomposed and
    ordered string the nukta, the mark of the lowest class, follows its base
    letter directly, so only adjacent pairs compose. *)
Fixpoint compose (s : jsstring) : jsstring :=
  match s with
  | [] => []
  | a :: r =>
    match r with
    | [] => [a]
    | b :: r' =>
      match primaryComposite a b with
      | Some c => c :: compose r'
      | None => a :: compose r
      end
    end
  end.

(** Modelled from the spec: [normalizeHindiText] of [utils/hindiUtils], which
    is imported by the engine but is not among the sources.  The spec asks for
    canonical Unicode composition/decomposition as the first pass; this is
    normalization form C on the code units the layouts can produce: the
    Devanagari block with its decompositions, combining classes and
    composition exclusions, every other code unit being a starter without a
    decomposition.  The spec adds, on top of this pass, the equivalences of an
    explicit table; it lists no pair of that table, and no pass for it is
    modelled here: what is proved with this definition uses only that
    canonically equivalent sequences get one form. *)
Definition normalizeHindiText (text : jsstring) : jsstring :=
  compose (canonicalOrder (decompose text)).

(** Modelled from the spec: [compareHindiChars] of [utils/hindiUtils], not
    among the sources.  Both sides are compared in normalized form. *)
Definition compareHindiChars (char1 char2 : jsstring) : bool :=
  jsstring_eqb (normalizeHindiText char1) (normalizeHindiText char2).

(** A code unit without a canonical decomposition. *)
Definition decomposed (c : N) : Prop := assoc c DECOMPOSITIONS = None.

(** A reversed string in which no mark has to move. *)
Fixpoint ordered_rev (l : list N) : Prop :=
  match l with
  | c :: ((p :: _) as r) => inverted c p = false /\ ordered_rev r
  | _ => True
  end.

(** ** Statistics ([utils/statsCalculator]) *)

(** Modelled from the spec: the accuracy that [calculateDetailedStats] of
    [utils/statsCalculator] returns; the module is not among the sources.
    The spec gives [correctCharacters / totalCharactersTyped * 100], and
    [100] when nothing was typed.  The quotient is taken in exact
    rationals. *)
Definition accuracy (totalCharactersTyped correctCharacters : Z) : Q :=
  if (totalCharactersTyped =? 0)%Z then 100%Q
  else ((inject_Z correctCharacters / inject_Z totalCharactersTyped) * 100)%Q.

(** ** The layout context ([contexts/KeyboardLayoutContext]) *)

Definition AVAILABLE_LAYOUTS : list (string * KeyboardLayout) :=
  [ ("remington-gail", REMINGTON_GAIL_LAYOUT); ("inscript", INSCRIPT_LAYOUT) ].

(** [AVAILABLE_LAYOUTS[layoutId]] where it is a layout. *)
Fixpoint layoutOf (registry : list (string * KeyboardLayout)) (layoutId : string)
  : option KeyboardLayout :=
  match registry with
  | [] => None
  | (id, layout) :: r => if String.eqb id layoutId then Some layout else layoutOf r layoutId
  end.

Record KeyboardLayoutContextValue : Type := {
  currentLayout : KeyboardLayout;
  currentLayoutId : string;
  keyMap : JsMap KeyMapping
}.

(** What evaluating the body of the provider gives: the context value, or the
    [TypeError] of reading [rows] and [flat] off a value that is no layout. *)
Inductive Rendered : Type :=
| Provides (value : KeyboardLayoutContextValue)
| ThrowsTypeError.

(** The provider keeps [layoutId] in a [useState] cell and hands the setter
    out as [setLayout]: the call stores its argument. *)
Definition setLayout (layoutId : string) (previous : string) : string := layoutId.

(** The body of [KeyboardLayoutProvider] for the stored [layoutId]. *)
Definition KeyboardLayoutProvider (layoutId : string) : Rendered :=
  match layoutOf AVAILABLE_LAYOUTS layoutId with
  | Some layout =>
    Provides {| currentLayout := layout;
                currentLayoutId := layoutId;
                keyMap := keyMapOf layout |}
  | None => ThrowsTypeError
  end.

(** ** The typing engine ([hooks/useTypingEngine]) *)

Inductive TypingMode : Type := learn | practice.

(** Modelled from the spec: the session timer of [hooks/useTimer], which is
    not among the sources.  [start] is idempotent, [pause] and [reset] cancel
    a pending expiry, and the duration callback fires at most once until the
    timer is reset. *)
Record Timer : Type := {
  running : bool;
  expired : bool
}.

(** Modelled from the spec: the timer of a new session. *)
Definition timer_initial : Timer := {| running := false; expired := false |}.

(** Modelled from the spec: [timer.start()], idempotent while running. *)
Definition timer_start (t : Timer) : Timer := {| running := true; expired := expired t |}.

(** Modelled from the spec: [timer.pause()]. *)
Definition timer_pause (t : Timer) : Timer := {| running := false; expired := expired t |}.

(** Modelled from the spec: [timer.reset()]. *)
Definition timer_reset (t : Timer) : Timer := timer_initial.

(** Modelled from the spec: the expiry of the time budget, after which the
    duration callback is called. *)
Definition timer_fire (t : Timer) : Timer := {| running := false; expired := true |}.

(** The state cells of the hook and its timer, together with what the hook
    has handed to its environment: the [setTimeout(finish, 50)] callbacks that
    have not run yet, and the number of calls of [onComplete] so far (the host
    passes an [onComplete], as [App] does). *)
Record Engine : Type := {
  currentIndex : nat;
  typedText : jsstring;
  errors : list nat;
  isActive : bool;
  timer : Timer;
  pendingFinish : nat;
  completions : nat
}.

(** What can happen to the hook.  Events are handled one at a time, each on
    the state that the one before has left. *)
Inductive Event : Type :=
| KeyPress (key : string) (modifiers : ModifierState)  (* the host calls [handleKeyPress] *)
| FinishTimeout                                        (* a scheduled [finish] runs *)
| TimerElapsed                                         (* the timer calls its [onComplete] *)
| Reset.                                               (* the host calls [reset] *)

Section useTypingEngine.
Variable normalizeHindiText : jsstring -> jsstring.
Variable compareHindiChars : jsstring -> jsstring -> bool.
Variable keyMap : JsMap KeyMapping.
Variable targetText : jsstring.
Variable mode : TypingMode.
Variable duration : option N.

Definition normalizedTarget : jsstring := normalizeHindiText targetText.

(** [duration: mode === 'practice' ? duration : undefined] *)
Definition timerDuration : option N :=
  match mode with practice => duration | learn => None end.

Definition engine_initial : Engine :=
  {| currentIndex := 0; typedText := []; errors := []; isActive := false;
     timer := timer_initial; pendingFinish := 0; completions := 0 |}.

Definition isCompleted (s : Engine) : bool :=
  (length normalizedTarget <=? currentIndex s)%nat.

(** The arguments [currentStats] passes for the total and the correct
    characters. *)
Definition totalCharactersTyped (s : Engine) : Z := Z.of_nat (length (typedText s)).
Definition correctCharacters (s : Engine) : Z :=
  (Z.of_nat (length (typedText s)) - Z.of_nat (length (errors s)))%Z.
Definition currentAccuracy (s : Engine) : Q :=
  accuracy (totalCharactersTyped s) (correctCharacters s).

Definition finish (s : Engine) : Engine :=
  {| currentIndex := currentIndex s; typedText := typedText s; errors := errors s;
     isActive := false;
     timer := timer_pause (timer s);
     pendingFinish := pendingFinish s;
     completions := S (completions s) |}.

Definition handleKeyPress (key : string) (modifiers : ModifierState) (s : Engine) : Engine :=
  if negb (Mapper.isTypeableKey keyMap key) || isCompleted s then s
  else
    let isActive' := true in
    let timer' := if isActive s then timer s else timer_start (timer s) in
    let char := Mapper.getCharacterForKey keyMap key modifiers in
    match char with
    | [] =>
      {| currentIndex := currentIndex s; typedText := typedText s; errors := errors s;
         isActive := isActive'; timer := timer';
         pendingFinish := pendingFinish s; completions := completions s |}
    | _ :: _ =>
      let correct :=
        match charAt normalizedTarget (currentIndex s) with
        | Some expected => compareHindiChars char [expected]
        | None => false
        end in
      let next := (currentIndex s + 1)%nat in
      {| currentIndex := next;
         typedText := typedText s ++ char;
         errors := if correct then errors s else errors s ++ [currentIndex s];
         isActive := isActive'; timer := timer';
         pendingFinish :=
           if (length normalizedTarget <=? next)%nat then S (pendingFinish s)
           else pendingFinish s;
         completions := completions s |}
    end.

Definition reset (s : Engine) : Engine :=
  {| currentIndex := 0; typedText := []; errors := []; isActive := false;
     timer := timer_reset (timer s);
     pendingFinish := pendingFinish s; completions := completions s |}.

Definition handle (e : Event) (s : Engine) : Engine :=
  match e with
  | KeyPress key modifiers => handleKeyPress key modifiers s
  | FinishTimeout =>
    match pendingFinish s with
    | O => s
    | S n =>
      finish {| currentIndex := currentIndex s; typedText := typedText s;
                errors := errors s; isActive := isActive s; timer := timer s;
                pendingFinish := n; completions := completions s |}
    end
  | TimerElapsed =>
    match timerDuration with
    | Some _ =>
      if running (timer s) && negb (expired (timer s)) then
        finish {| currentIndex := currentIndex s; typedText := typedText s;
                  errors := errors s; isActive := isActive s;
                  timer := timer_fire (timer s);
                  pendingFinish := pendingFinish s; completions := completions s |}
      else s
    | None => s
    end
  | Reset => reset s
  end.

(** The state after the events of a session, in arrival order. *)
Definition run (events : list Event) (s : Engine) : Engine :=
  fold_left (fun s e => handle e s) events s.

(** The cursor stays within the target, the recorded errors are past
    positions, and the typed text has at least one code unit for each
    position. *)
Record cursor_invariant (s : Engine) : Prop := {
  inv_index : (currentIndex s <= length normalizedTarget)%nat;
  inv_errors : Forall (fun e => (e < currentIndex s)%nat) (errors s);
  inv_typed : (currentIndex s <= length (typedText s))%nat
}.

(** The whole target was typed, and there was something to type. *)
Definition textConsumed (s : Engine) : bool :=
  isCompleted s && (0 <? length normalizedTarget)%nat.

(** Every call of [finish], made or scheduled, has its cause: the text was
    consumed, or the timer fired. *)
Definition emissions_accounted (s : Engine) : Prop :=
  (completions s + pendingFinish s =
   (if textConsumed s then 1 else 0) + (if expired (timer s) then 1 else 0))%nat.
End useTypingEngine.

(** ** Notions of the specification *)

(** The keys that [isModifierKey] lists, and the control keys that
    [isTypeableKey] rejects by name. *)
Definition MODIFIER_KEYS : list string :=
  [ "ShiftLeft"; "ShiftRight"; "AltRight"; "ControlLeft"; "ControlRight";
    "AltLeft"; "MetaLeft"; "MetaRight" ].

Definition CONTROL_KEYS : list string := [ "Backspace"; "Enter"; "Tab"; "Escape" ].

(** A key of the group is held. *)
Definition held (group : list string) (pressedKeys : JsSet) : bool :=
  existsb (Set_has pressedKeys) group.

(** The modifier state in the words of the spec, from the modifier groups
    that the layout declares. *)
Definition modifierStateFor (layout : KeyboardLayout) (pressedKeys : JsSet) : ModifierState :=
  let shiftHeld := held (mod_shift (modifiers layout)) pressedKeys in
  let altgrHeld := held (mod_altgr (modifiers layout)) pressedKeys in
  if shiftHeld && altgrHeld then AltGrShift
  else if altgrHeld then AltGr
  else if shiftHeld then Shift
  else Normal.

Definition MODIFIER_STATES : list ModifierState := [Normal; Shift; AltGr; AltGrShift].

(** The entry that [findKeysForCharacter] pushes for a slot. *)
Definition hit (keyMapping : KeyMapping) (modifierState : ModifierState) : KeyHit :=
  {| hit_key := key keyMapping;
     hit_modifierState := modifierState;
     hit_keyMapping := keyMapping |}.

(** The pairs of a key and a modifier state whose slot is empty, in the order
    of the rows. *)
Definition emptySlots (layout : KeyboardLayout) : list (string * ModifierState) :=
  flat_map
    (fun keyMapping =>
       List.map (fun modifierState => (key keyMapping, modifierState))
         (List.filter (fun modifierState => jsstring_eqb (slot keyMapping modifierState) [])
            MODIFIER_STATES))
    (concat (rows layout)).

(** Every slot of the key map holds at most one code unit. *)
Definition single_units (keyMap : JsMap KeyMapping) : Prop :=
  forall keyMapping modifierState,
    In keyMapping (Map_values keyMap) ->
    (length (slot keyMapping modifierState) <= 1)%nat.

(** ** Rows and fingers ([utils/keyboardMapper]) *)

(** The row functions of [useKeyboardMapper], bound to the layout in the
    context.  A row index is a JavaScript number; the integers are modelled. *)
Module LayoutMapper.
Section WithLayout.
Variable currentLayout : KeyboardLayout.

(** The loop of [getKeyRow] from row [i] on. *)
Fixpoint getKeyRow_from (rest : list (list KeyMapping)) (i : Z) (key_ : string) : Z :=
  match rest with
  | [] => (-1)%Z
  | row :: rest' =>
    if existsb (fun k => String.eqb (key k) key_) row then i
    else getKeyRow_from rest' (i + 1)%Z key_
  end.

Definition getKeyRow (key_ : string) : Z := getKeyRow_from (rows currentLayout) 0%Z key_.

Definition getKeysInRow (rowIndex : Z) : list KeyMapping :=
  if (rowIndex <? 0)%Z || (Z.of_nat (length (rows currentLayout)) <=? rowIndex)%Z then []
  else nth (Z.to_nat rowIndex) (rows currentLayout) [].
End WithLayout.
End LayoutMapper.

(** The standalone row functions read [REMINGTON_GAIL_LAYOUT]. *)
Definition getKeyRow : string -> Z := LayoutMapper.getKeyRow REMINGTON_GAIL_LAYOUT.
Definition getKeysInRow : Z -> list KeyMapping := LayoutMapper.getKeysInRow REMINGTON_GAIL_LAYOUT.

Definition fingerNames : list string :=
  [ "Left Pinky"; "Left Ring"; "Left Middle"; "Left Index";
    "Right Index"; "Right Middle"; "Right Ring"; "Right Pinky";
    "Left Thumb"; "Right Thumb" ].

(** A JavaScript number as an array index: an integer, or a number that is
    none (a fraction, an infinity or NaN), for which the array has no
    element. *)
Inductive JsNumber : Type :=
| JsInteger (z : Z)
| JsNotInteger.

(** [fingerNames[finger]], [None] for [undefined]. *)
Definition fingerNameAt (finger_ : JsNumber) : option string :=
  match finger_ with
  | JsInteger z => if (z <? 0)%Z then None else nth_error fingerNames (Z.to_nat z)
  | JsNotInteger => None
  end.

(** [fingerNames[finger] || 'Unknown'] *)
Definition getFingerName (finger_ : JsNumber) : string :=
  match fingerNameAt finger_ with
  | Some name_ => name_
  | None => "Unknown"
  end.

(** ** The keyboard components ([components/keyboard]) *)

(** [displayChar] of the [Key] component: the slot of the mapping it is given
    for the modifier state it is given. *)
Definition Key_displayChar (mapping : KeyMapping) (modifierState : ModifierState) : jsstring :=
  match modifierState with
  | Shift => shift mapping
  | AltGr => altgr mapping
  | AltGrShift => altgrShift mapping
  | Normal => normal mapping
  end.

(** What the key cap shows: [displayChar || ' ']. *)
Definition Key_text (mapping : KeyMapping) (modifierState : ModifierState) : jsstring :=
  match Key_displayChar mapping modifierState with
  | [] => [0xA0]
  | c :: r => c :: r
  end.

(** [nextKeyInfo] of [VirtualKeyboard]: the first candidate for the next
    character under the current modifier state; an undefined or empty next
    character gives none. *)
Definition VirtualKeyboard_nextKeyInfo (keyMap : JsMap KeyMapping)
    (modifierState : ModifierState) (nextCharacter : option jsstring) : option KeyHit :=
  match nextCharacter with
  | Some (c :: r) =>
    List.find (fun info => bool_decide (hit_modifierState info = modifierState))
      (Mapper.findKeysForCharacter keyMap (c :: r))
  | _ => None
  end.

(** [nextKey = nextKeyInfo?.key] *)
Definition VirtualKeyboard_nextKey (keyMap : JsMap KeyMapping)
    (modifierState : ModifierState) (nextCharacter : option jsstring) : option string :=
  hit_key <$> VirtualKeyboard_nextKeyInfo keyMap modifierState nextCharacter.

(** The keys that render with [isNext]. *)
Definition VirtualKeyboard_highlighted (layout : KeyboardLayout)
    (modifierState : ModifierState) (nextCharacter : option jsstring) : list KeyMapping :=
  List.filter
    (fun keyMapping =>
       bool_decide (VirtualKeyboard_nextKey (keyMapOf layout) modifierState nextCharacter
                    = Some (key keyMapping)))
    (concat (rows layout)).

(** ** The application ([App]) *)

(** [nextChar = targetText[currentIndex]] *)
Definition App_nextChar (targetText : jsstring) (currentIndex_ : nat) : option jsstring :=
  match charAt targetText currentIndex_ with
  | Some c => Some [c]
  | None => None
  end.

(** [nextKeyInfo] of [App]: the candidate under the current modifier state,
    or else the first candidate. *)
Definition App_nextKeyInfo (keyMap : JsMap KeyMapping) (modifierState : ModifierState)
    (targetText : jsstring) (currentIndex_ : nat) : option KeyHit :=
  match App_nextChar targetText currentIndex_ with
  | Some nextChar =>
    match List.find (fun k => bool_decide (hit_modifierState k = modifierState))
            (Mapper.findKeysForCharacter keyMap nextChar) with
    | Some k => Some k
    | None => head (Mapper.findKeysForCharacter keyMap nextChar)
    end
  | None => None
  end.

(** The four styles of a character box, in the order of the template. *)
Inductive BoxStyle : Type := TypedStyle | ErrorStyle | CurrentStyle | PendingStyle.

Definition App_boxStyles (currentIndex_ : nat) (errors_ : list nat) (index : nat)
  : list BoxStyle :=
  let isTyped := (index <? currentIndex_)%nat in
  let isError := existsb (Nat.eqb index) errors_ in
  let isCurrent := (index =? currentIndex_)%nat in
  (if isTyped && negb isError then [TypedStyle] else []) ++
  (if isError then [ErrorStyle] else []) ++
  (if isCurrent then [CurrentStyle] else []) ++
  (if negb isTyped && negb isCurrent then [PendingStyle] else []).

(** The fingers that the two hand drawings fill green. *)
Definition App_greenFingers (fingers : list nat) (nextKeyMapping : option KeyMapping)
  : list nat :=
  List.filter
    (fun f => match nextKeyMapping with
              | Some m => (finger m =? f)%nat
              | None => false
              end)
    fingers.

Definition App_leftHand : list nat := [0; 1; 2; 3]%nat.
Definition App_rightHand : list nat := [4; 5; 6; 7]%nat.

(** ** Persistence of the selection ([contexts/KeyboardLayoutContext]) *)

(** What [localStorage.getItem] does: it returns a string or [null], or it
    throws. *)
Inductive StorageRead : Type :=
| ReadValue (saved : option string)
| ReadThrows.

Section Persistence.
(** The names that [AVAILABLE_LAYOUTS] inherits from its prototype: the
    operator [in] finds them too. *)
Variable inherited : string -> bool.

Definition hasProperty (name_ : string) : bool :=
  match layoutOf AVAILABLE_LAYOUTS name_ with
  | Some _ => true
  | None => inherited name_
  end.

(** The initializer of the [layoutId] cell. *)
Definition initialLayoutId (read : StorageRead) (defaultLayout : string) : string :=
  match read with
  | ReadValue (Some saved) =>
    if negb (String.length saved =? 0)%nat && hasProperty saved then saved
    else defaultLayout
  | ReadValue None => defaultLayout
  | ReadThrows => defaultLayout
  end.
End Persistence.

(** The effect that persists the selection: [setItem] stores the identifier,
    unless it throws. *)
Definition persistLayout (layoutId : string) (writeThrows : bool) (stored : option string)
  : option string :=
  if writeThrows then stored else Some layoutId.

(** ** Notions for the properties of the engine *)

(** Entries of a key map are stored under the key of the mapping, each key
    once. *)
Definition Map_wf (m : JsMap KeyMapping) : Prop :=
  List.NoDup (List.map fst m) /\ List.Forall (fun e => key (snd e) = fst e) m.

(** The positions at which the typed characters do not compare equal to the
    target, from position [i] on. *)
Fixpoint mismatches (compare : jsstring -> jsstring -> bool) (target : jsstring)
    (i : nat) (chars : list jsstring) : list nat :=
  match chars with
  | [] => []
  | char :: rest =>
    (if match charAt target i with
        | Some expected => compare char [expected]
        | None => false
        end
     then [] else [i]) ++ mismatches compare target (S i) rest
  end.

(** The cells that [reset] clears and the keystrokes fill. *)
Definition cells (s : Engine) : nat * jsstring * list nat :=
  (currentIndex s, typedText s, errors s).

(** A session in which the layout may change between two events: each event
    is handled with the key map that the context provides at that time. *)
Definition runWith (normalize : jsstring -> jsstring)
    (compare : jsstring -> jsstring -> bool) (targetText : jsstring)
    (mode : TypingMode) (duration : option N)
    (steps : list (JsMap KeyMapping * Event)) (s : Engine) : Engine :=
  fold_left (fun s step => handle normalize compare (fst step) targetText mode duration (snd step) s)
    steps s.

(** * Properties *)

Local Close Scope N_scope.
Local Open Scope nat_scope.

(** ** Literals *)

Example u_decodes :
  u "A" = [0x41]%N /\ u "÷" = [0xF7]%N /\ u "आ" = [0x906]%N /\
  u "म्" = [0x92E; 0x94D]%N /\ u "द्य" = [0x926; 0x94D; 0x92F]%N.
Proof. repeat split; reflexivity. Qed.

(** ** The key index *)

Lemma Map_get_set {V : Type} (m : JsMap V) (k : string) (v : V) (k' : string) :
  Map_get (Map_set m k v) k' = if String.eqb k k' then Some v else Map_get m k'.
Proof.
  induction m as [|[k0 v0] m IH]; simpl.
  - reflexivity.
  - destruct (String.eqb_spec k0 k) as [->|Hne]; simpl.
    + destruct (String.eqb_spec k k'); reflexivity.
    + rewrite IH.
      destruct (String.eqb_spec k0 k') as [->|]; [|reflexivity].
      destruct (String.eqb_spec k k'); congruence.
Qed.

Lemma Map_get_fold {V : Type} (es : list (string * V)) :
  List.NoDup (List.map fst es) ->
  forall (m : JsMap V) (k : string) (v : V),
    Map_get (fold_left (fun m e => Map_set m (fst e) (snd e)) es m) k = Some v <->
    In (k, v) es \/ (~ In k (List.map fst es) /\ Map_get m k = Some v).
Proof.
  induction es as [|[k0 v0] es IH]; intros Hnd m k v; simpl.
  - tauto.
  - inversion Hnd as [|? ? Hnotin Hnd']; subst.
    rewrite (IH Hnd'), Map_get_set.
    destruct (String.eqb_spec k0 k) as [->|Hne].
    + split.
      * intros [Hin | [_ Heq]]; [tauto|]. left; left; congruence.
      * intros [[Heq | Hin] | [Hno _]].
        -- right; split; [exact Hnotin | congruence].
        -- exfalso. apply Hnotin. change k with (fst (k, v)). now apply in_map.
        -- tauto.
    + split.
      * intros [Hin | [Hno Hget]]; [tauto|]. right; split; [|exact Hget]. tauto.
      * intros [[Heq | Hin] | [Hno Hget]]; [congruence | tauto | tauto].
Qed.

Lemma Map_get_new {V : Type} (es : list (string * V)) (k : string) (v : V) :
  List.NoDup (List.map fst es) ->
  Map_get (Map_new es) k = Some v <-> In (k, v) es.
Proof.
  intros Hnd. unfold Map_new. rewrite (Map_get_fold es Hnd). simpl.
  split; [intros [H | [_ H]]; [exact H | discriminate] | tauto].
Qed.

(** The index of a layout whose keys are distinct holds exactly the mappings
    of its rows, each under its own key. *)
Lemma keyMapOf_get (layout : KeyboardLayout) (k : string) (m : KeyMapping) :
  List.NoDup (List.map key (concat (rows layout))) ->
  Map_get (keyMapOf layout) k = Some m <-> In m (concat (rows layout)) /\ key m = k.
Proof.
  intros Hnd. unfold keyMapOf. rewrite Map_get_new.
  - rewrite in_map_iff. split.
    + intros (m' & Heq & Hin). inversion Heq; subst. tauto.
    + intros [Hin <-]. exists m. tauto.
  - rewrite List.map_map. simpl. exact Hnd.
Qed.

Lemma REMINGTON_GAIL_keys_distinct :
  List.NoDup (List.map key (concat (rows REMINGTON_GAIL_LAYOUT))).
Proof. apply NoDup_ListNoDup. eapply bool_decide_unpack. vm_compute. exact I. Qed.

Lemma INSCRIPT_keys_distinct :
  List.NoDup (List.map key (concat (rows INSCRIPT_LAYOUT))).
Proof. apply NoDup_ListNoDup. eapply bool_decide_unpack. vm_compute. exact I. Qed.

(** ** Typeable keys *)

Lemma eqb_existsb_In (k : string) (l : list string) :
  existsb (String.eqb k) l = true <-> In k l.
Proof.
  rewrite existsb_exists. split.
  - intros (x & Hin & Heq). apply String.eqb_eq in Heq. now subst.
  - intros Hin. exists k. split; [exact Hin | apply String.eqb_refl].
Qed.

Lemma isModifierKey_In (k : string) : isModifierKey k = true <-> In k MODIFIER_KEYS.
Proof.
  rewrite <- eqb_existsb_In. unfold isModifierKey, MODIFIER_KEYS. simpl.
  rewrite orb_false_r, !orb_assoc. reflexivity.
Qed.

Lemma isControlKey_In (k : string) :
  String.eqb k "Backspace" || String.eqb k "Enter" ||
  String.eqb k "Tab" || String.eqb k "Escape" = true <-> In k CONTROL_KEYS.
Proof.
  rewrite <- eqb_existsb_In. unfold CONTROL_KEYS. simpl.
  rewrite orb_false_r, !orb_assoc. reflexivity.
Qed.

Lemma Map_has_is_Some {V : Type} (m : JsMap V) (k : string) :
  Map_has m k = true <-> exists v, Map_get m k = Some v.
Proof.
  unfold Map_has. destruct (Map_get m k) as [v|].
  - split; [eauto | reflexivity].
  - split; [discriminate | intros [v Hv]; discriminate].
Qed.

(** C3, as the code has it.  [isTypeableKey] is false for the eight keys that
    [isModifierKey] lists (both Shift keys, AltRight, and also ControlLeft,
    ControlRight, AltLeft, MetaLeft and MetaRight, whatever the modifier
    groups of the layout are) and for Backspace, Enter, Tab and Escape; for
    every other key it is true exactly when the key has an entry in the key
    index of the layout. *)
Theorem isTypeableKey_by_key_lists (layout : KeyboardLayout) (k : string) :
  (In k MODIFIER_KEYS \/ In k CONTROL_KEYS ->
     Mapper.isTypeableKey (keyMapOf layout) k = false) /\
  (~ In k MODIFIER_KEYS -> ~ In k CONTROL_KEYS ->
     (Mapper.isTypeableKey (keyMapOf layout) k = true <->
      exists m, Map_get (keyMapOf layout) k = Some m)).
Proof.
  unfold Mapper.isTypeableKey. split.
  - intros [Hm | Hc].
    + apply isModifierKey_In in Hm. now rewrite Hm.
    + apply isControlKey_In in Hc. rewrite Hc. now destruct (isModifierKey k).
  - intros Hm Hc.
    destruct (isModifierKey k) eqn:Em; [exfalso; apply Hm, isModifierKey_In, Em|].
    destruct (String.eqb k "Backspace" || String.eqb k "Enter" ||
              String.eqb k "Tab" || String.eqb k "Escape") eqn:Ec;
      [exfalso; apply Hc, isControlKey_In, Ec|].
    apply Map_has_is_Some.
Qed.

(** The claim of C3 fails at ControlLeft: the key is in neither modifier group
    of the Remington GAIL layout and is none of the four control keys, it has
    an entry in the key index, and it is not typeable. *)
Lemma isTypeableKey_ControlLeft :
  ~ In "ControlLeft" (mod_shift (modifiers REMINGTON_GAIL_LAYOUT)) /\
  ~ In "ControlLeft" (mod_altgr (modifiers REMINGTON_GAIL_LAYOUT)) /\
  ~ In "ControlLeft" CONTROL_KEYS /\
  (exists m, Map_get KEY_MAP "ControlLeft" = Some m) /\
  isTypeableKey "ControlLeft" = false.
Proof.
  split; [|split; [|split; [|split]]].
  - simpl. intros [H|[H|[]]]; discriminate.
  - simpl. intros [H|[]]; discriminate.
  - simpl. intros [H|[H|[H|[H|[]]]]]; discriminate.
  - eexists. vm_compute. reflexivity.
  - vm_compute. reflexivity.
Qed.

(** ** Modifier state *)

Lemma Set_has_Permutation (s1 s2 : JsSet) (k : string) :
  Permutation s1 s2 -> Set_has s1 k = Set_has s2 k.
Proof.
  intros HP. unfold Set_has.
  destruct (existsb (String.eqb k) s2) eqn:E2.
  - apply eqb_existsb_In. apply eqb_existsb_In in E2.
    eapply Permutation_in; [symmetry; exact HP | exact E2].
  - destruct (existsb (String.eqb k) s1) eqn:E1; [|reflexivity].
    apply eqb_existsb_In in E1. rewrite <- E2. symmetry.
    apply eqb_existsb_In. eapply Permutation_in; eassumption.
Qed.

(** C8, as the code has it.  [getModifierState] takes no layout: whatever
    layout is active, it returns the state that the spec derives from the
    shift and altgr groups of the Remington GAIL layout, that is from
    ShiftLeft, ShiftRight and AltRight (AltGrShift when a key of each group is
    held, else AltGr, else Shift, else Normal), and two sets that hold the
    same keys in a different order give the same state. *)
Theorem getModifierState_by_groups (pressedKeys : JsSet) :
  getModifierState pressedKeys = modifierStateFor REMINGTON_GAIL_LAYOUT pressedKeys /\
  (forall reordered : JsSet, Permutation pressedKeys reordered ->
     getModifierState reordered = getModifierState pressedKeys).
Proof.
  split.
  - unfold getModifierState, Mapper.getModifierState, modifierStateFor, held. simpl.
    rewrite !orb_false_r. reflexivity.
  - intros reordered HP.
    unfold getModifierState, Mapper.getModifierState.
    rewrite !(Set_has_Permutation _ _ _ HP). reflexivity.
Qed.

(** The claim of C8 fails under the INSCRIPT layout, which declares no altgr
    key: with AltRight alone no key of either of its groups is held, so the
    state by its groups is Normal, and [getModifierState] returns AltGr; KeyK
    then types nothing where it types KA under Normal. *)
Lemma getModifierState_INSCRIPT_AltRight :
  held (mod_shift (modifiers INSCRIPT_LAYOUT)) ["AltRight"] = false /\
  held (mod_altgr (modifiers INSCRIPT_LAYOUT)) ["AltRight"] = false /\
  modifierStateFor INSCRIPT_LAYOUT ["AltRight"] = Normal /\
  Mapper.getModifierState ["AltRight"] = AltGr /\
  Mapper.getCharacterForKey INSCRIPT_KEY_MAP "KeyK" AltGr = [] /\
  Mapper.getCharacterForKey INSCRIPT_KEY_MAP "KeyK" Normal = u "क".
Proof. repeat split; reflexivity. Qed.

(** ** Candidate keys for a character *)

Lemma findKeysForCharacter_flat_map (keyMap : JsMap KeyMapping) (character : jsstring) :
  Mapper.findKeysForCharacter keyMap character =
  flat_map (Mapper.hitsOf character) (Map_values keyMap).
Proof.
  unfold Mapper.findKeysForCharacter.
  assert (Hgen : forall l acc,
             fold_left (fun results keyMapping => results ++ Mapper.hitsOf character keyMapping) l acc
             = acc ++ flat_map (Mapper.hitsOf character) l).
  { induction l as [|x l IH]; intros acc; simpl.
    - now rewrite app_nil_r.
    - now rewrite IH, app_assoc. }
  apply Hgen.
Qed.

Lemma jsstring_eqb_eq (a b : jsstring) : jsstring_eqb a b = true <-> a = b.
Proof.
  unfold jsstring_eqb. split.
  - intros H. apply bool_decide_eq_true in H. exact H.
  - intros H. apply bool_decide_eq_true. exact H.
Qed.

Lemma In_hitsOf (character : jsstring) (keyMapping : KeyMapping) (h : KeyHit) :
  In h (Mapper.hitsOf character keyMapping) <->
  exists modifierState, slot keyMapping modifierState = character /\ h = hit keyMapping modifierState.
Proof.
  unfold Mapper.hitsOf. rewrite !in_app_iff. split.
  - intros H.
    repeat match type of H with
    | _ \/ _ => destruct H as [H|H]
    | In _ (if ?c then _ else _) => let E := fresh "E" in destruct c eqn:E; [|destruct H]
    end;
    destruct H as [<-|[]]; apply jsstring_eqb_eq in E;
    [exists Normal | exists Shift | exists AltGr | exists AltGrShift]; split; auto.
  - intros ([] & Hs & ->); simpl in Hs; apply jsstring_eqb_eq in Hs; rewrite Hs.
    + left. now left.
    + right; left. now left.
    + right; right; left. now left.
    + right; right; right. now left.
Qed.

(** C5, as the code has it.  [findKeysForCharacter] returns exactly the pairs
    of a key and a modifier state whose slot is the character itself, compared
    as code-unit sequences by [===]; nothing is normalized. *)
Theorem findKeysForCharacter_exact (keyMap : JsMap KeyMapping) (character : jsstring) (h : KeyHit) :
  In h (Mapper.findKeysForCharacter keyMap character) <->
  exists keyMapping modifierState,
    In keyMapping (Map_values keyMap) /\
    slot keyMapping modifierState = character /\
    h = hit keyMapping modifierState.
Proof.
  rewrite findKeysForCharacter_flat_map, in_flat_map. split.
  - intros (km & Hin & Hh). apply In_hitsOf in Hh as (ms & Hs & ->). eauto.
  - intros (km & ms & Hin & Hs & ->). exists km. split; [exact Hin|].
    apply In_hitsOf. eauto.
Qed.

(** The claim of C5 fails at the letter FA: the normalizer identifies the
    precomposed U+095E with PHA + nukta, the slot of KeyU under AltGr holds
    the latter, and the lookup finds the key for the one and nothing for the
    other. *)
Lemma findKeysForCharacter_FA :
  normalizeHindiText [0x95E]%N = normalizeHindiText [0x92B; 0x93C]%N /\
  getCharacterForKey "KeyU" AltGr = [0x92B; 0x93C]%N /\
  findKeysForCharacter [0x95E]%N = [] /\
  List.map (fun h => (hit_key h, hit_modifierState h))
    (findKeysForCharacter [0x92B; 0x93C]%N) = [("KeyU", AltGr)].
Proof.
  repeat split; vm_compute; reflexivity.
Qed.

(** C10.  For the empty string [findKeysForCharacter] returns a list that is
    not empty: it has one entry for every empty slot of the layout, forty in
    all, and so reports ShiftRight under each of the four modifier states. *)
Theorem findKeysForCharacter_empty_string :
  findKeysForCharacter [] <> [] /\
  List.map (fun h => (hit_key h, hit_modifierState h)) (findKeysForCharacter [])
    = emptySlots REMINGTON_GAIL_LAYOUT /\
  length (findKeysForCharacter []) = 40 /\
  List.filter (fun h => String.eqb (hit_key h) "ShiftRight") (findKeysForCharacter [])
    = List.map (fun modifierState =>
                  {| hit_key := "ShiftRight"; hit_modifierState := modifierState;
                     hit_keyMapping := KM "ShiftRight" [] [] [] [] 7 RightHand "Shift" |})
        MODIFIER_STATES.
Proof.
  split; [|split; [|split]].
  - intros H. apply (f_equal (@length KeyHit)) in H. vm_compute in H. discriminate.
  - vm_compute. reflexivity.
  - vm_compute. reflexivity.
  - vm_compute. reflexivity.
Qed.

(** ** The layout context *)

Lemma layoutOf_AVAILABLE (layoutId : string) (layout : KeyboardLayout) :
  layoutOf AVAILABLE_LAYOUTS layoutId = Some layout ->
  (layoutId = "remington-gail" /\ layout = REMINGTON_GAIL_LAYOUT) \/
  (layoutId = "inscript" /\ layout = INSCRIPT_LAYOUT).
Proof.
  unfold AVAILABLE_LAYOUTS. cbn [layoutOf].
  destruct (String.eqb_spec "remington-gail" layoutId) as [<-|_].
  - intros [= <-]. now left.
  - destruct (String.eqb_spec "inscript" layoutId) as [<-|_].
    + intros [= <-]. now right.
    + intros H. discriminate H.
Qed.

Lemma AVAILABLE_keys_distinct (layoutId : string) (layout : KeyboardLayout) :
  layoutOf AVAILABLE_LAYOUTS layoutId = Some layout ->
  List.NoDup (List.map key (concat (rows layout))).
Proof.
  intros H. apply layoutOf_AVAILABLE in H as [[_ ->] | [_ ->]].
  - apply REMINGTON_GAIL_keys_distinct.
  - apply INSCRIPT_keys_distinct.
Qed.

(** C6, as the code has it.  [setLayout] stores the identifier it is given.
    For a known identifier the provider then yields that layout under that
    identifier together with the key index of the same layout: the index holds
    exactly the mappings of the layout's rows, each under its key.  For an
    identifier that is not known (the type [LayoutId] leaves none for typed
    callers) the identifier is stored all the same and evaluating the
    provider throws. *)
Theorem setLayout_then_provider (layoutId previous : string) :
  match layoutOf AVAILABLE_LAYOUTS layoutId with
  | Some layout =>
    exists value,
      KeyboardLayoutProvider (setLayout layoutId previous) = Provides value /\
      currentLayoutId value = layoutId /\
      currentLayout value = layout /\
      forall k m, Map_get (keyMap value) k = Some m <->
                  In m (concat (rows (currentLayout value))) /\ key m = k
  | None =>
    setLayout layoutId previous = layoutId /\
    KeyboardLayoutProvider (setLayout layoutId previous) = ThrowsTypeError
  end.
Proof.
  unfold setLayout, KeyboardLayoutProvider.
  destruct (layoutOf AVAILABLE_LAYOUTS layoutId) as [layout|] eqn:E.
  - eexists. split; [reflexivity|]. simpl. split; [reflexivity|]. split; [reflexivity|].
    intros k m. apply keyMapOf_get. eapply AVAILABLE_keys_distinct, E.
  - split; reflexivity.
Qed.

(** The claim of C6 fails at an identifier that is not registered: after
    [setLayout] the selection is no longer the previous one, and the provider
    throws. *)
Lemma setLayout_unknown_id :
  layoutOf AVAILABLE_LAYOUTS "dvorak" = None /\
  setLayout "dvorak" "remington-gail" <> "remington-gail" /\
  KeyboardLayoutProvider (setLayout "dvorak" "remington-gail") = ThrowsTypeError /\
  (exists value, KeyboardLayoutProvider "remington-gail" = Provides value).
Proof.
  split; [reflexivity|]. split; [discriminate|]. split; [reflexivity|].
  eexists. reflexivity.
Qed.

(** ** Accuracy *)

(** C7.  With the counts that the engine passes, the accuracy is [100] while
    nothing is typed, otherwise [correctCharacters / totalCharactersTyped *
    100], and it is [100] whenever no error is recorded and something is
    typed. *)
Theorem accuracy_of_engine (s : Engine) :
  (totalCharactersTyped s = 0%Z -> currentAccuracy s = 100%Q) /\
  (totalCharactersTyped s <> 0%Z ->
     (currentAccuracy s ==
      inject_Z (correctCharacters s) / inject_Z (totalCharactersTyped s) * 100)%Q) /\
  (errors s = [] -> totalCharactersTyped s <> 0%Z -> (currentAccuracy s == 100)%Q).
Proof.
  unfold currentAccuracy, accuracy. split; [|split].
  - intros ->. reflexivity.
  - intros Hne. apply Z.eqb_neq in Hne. rewrite Hne. reflexivity.
  - intros He Hne. pose proof Hne as Hne'. apply Z.eqb_neq in Hne'. rewrite Hne'.
    unfold correctCharacters. rewrite He. simpl length. rewrite Z.sub_0_r.
    fold (totalCharactersTyped s).
    assert (Hq : ~ (inject_Z (totalCharactersTyped s) == 0)%Q).
    { intros H. apply Hne. unfold Qeq in H. simpl in H. lia. }
    field. exact Hq.
Qed.

(** ** The normalizer *)

Section Normalizer.
Local Open Scope N_scope.

Lemma assoc_In {A : Type} (c : N) (t : list (N * A)) (a : A) :
  assoc c t = Some a -> In (c, a) t.
Proof.
  induction t as [|[c' a'] t IH]; simpl; [discriminate|].
  destruct (N.eqb_spec c' c) as [->|_].
  - intros [= ->]. now left.
  - intros H. right. auto.
Qed.

(** Every decomposition consists of code units that do not decompose
    further. *)
Lemma DECOMPOSITIONS_one_level :
  Forall (fun e => decomposed (fst (snd e)) /\ decomposed (snd (snd e))) DECOMPOSITIONS.
Proof. unfold DECOMPOSITIONS. repeat constructor. Qed.

(** Every composition is the inverse of a decomposition. *)
Lemma COMPOSITIONS_sound :
  Forall (fun e => assoc (fst e) DECOMPOSITIONS = Some (snd e)) COMPOSITIONS.
Proof. unfold COMPOSITIONS. repeat constructor. Qed.

Lemma canonicalDecomposition_decomposed (c : N) :
  Forall decomposed (canonicalDecomposition c).
Proof.
  unfold canonicalDecomposition.
  destruct (assoc c DECOMPOSITIONS) as [[a b]|] eqn:E.
  - apply assoc_In in E.
    pose proof (proj1 (List.Forall_forall _ _) DECOMPOSITIONS_one_level _ E) as [Ha Hb].
    repeat constructor; assumption.
  - repeat constructor. exact E.
Qed.

Lemma decompose_decomposed (s : jsstring) : Forall decomposed (decompose s).
Proof.
  unfold decompose. induction s as [|c s IH]; cbn [flat_map].
  - constructor.
  - apply Forall_app. split; [apply canonicalDecomposition_decomposed | exact IH].
Qed.

Lemma decompose_id (s : jsstring) : Forall decomposed s -> decompose s = s.
Proof.
  unfold decompose. induction 1 as [|c s Hc _ IH]; cbn [flat_map]; [reflexivity|].
  rewrite IH. unfold canonicalDecomposition. rewrite Hc. reflexivity.
Qed.

(** *** Canonical ordering *)

Lemma insertMark_Permutation (c : N) (before : list N) :
  Permutation (insertMark c before) (c :: before).
Proof.
  induction before as [|p r IH]; simpl; [reflexivity|].
  destruct (inverted c p); [|reflexivity].
  rewrite IH. apply perm_swap.
Qed.

Lemma canonicalOrder_Permutation (s : jsstring) : Permutation (canonicalOrder s) s.
Proof.
  unfold canonicalOrder.
  assert (Hgen : forall s acc, Permutation (placeAll s acc) (rev s ++ acc)).
  { clear s. unfold placeAll. induction s as [|c s IH]; intros acc; simpl; [reflexivity|].
    rewrite IH, insertMark_Permutation, <- app_assoc. simpl.
    apply Permutation_app_head. reflexivity. }
  rewrite <- Permutation_rev, Hgen, app_nil_r, <- Permutation_rev. reflexivity.
Qed.

Lemma ordered_rev_tail (c : N) (l : list N) : ordered_rev (c :: l) -> ordered_rev l.
Proof. destruct l; simpl; tauto. Qed.

Lemma insertMark_ordered (c : N) (l : list N) :
  ordered_rev (c :: l) -> insertMark c l = c :: l.
Proof.
  destruct l as [|p r]; simpl; [reflexivity|].
  intros [H _]. rewrite H. reflexivity.
Qed.

Lemma insertMark_head (c : N) (l : list N) :
  exists t, insertMark c l = c :: t \/
            (exists p r, l = p :: r /\ inverted c p = true /\ insertMark c l = p :: t).
Proof.
  destruct l as [|p r]; simpl.
  - exists []. now left.
  - destruct (inverted c p) eqn:E.
    + exists (insertMark c r). right. exists p, r. auto.
    + exists (p :: r). now left.
Qed.

Lemma inverted_asym (c p : N) : inverted c p = true -> inverted p c = false.
Proof.
  unfold inverted. intros H. apply andb_true_iff in H as [_ H].
  apply N.ltb_lt in H. apply andb_false_iff. right. apply N.ltb_ge. lia.
Qed.

Lemma insertMark_keeps_order (c : N) (l : list N) :
  ordered_rev l -> ordered_rev (insertMark c l).
Proof.
  induction l as [|p r IH]; simpl; [tauto|].
  intros Hord. destruct (inverted c p) eqn:E.
  - specialize (IH (ordered_rev_tail _ _ Hord)).
    destruct r as [|q r'].
    + simpl. split; [now apply inverted_asym | exact I].
    + simpl in IH |- *.
      destruct (inverted c q) eqn:Eq.
      * split; [|exact IH]. simpl in Hord. tauto.
      * split; [now apply inverted_asym | exact IH].
  - simpl. split; [exact E | exact Hord].
Qed.

Lemma placeAll_ordered (s : jsstring) (before : list N) :
  ordered_rev before -> ordered_rev (placeAll s before).
Proof.
  unfold placeAll. revert before. induction s as [|c s IH]; intros before H; simpl.
  - exact H.
  - apply IH, insertMark_keeps_order, H.
Qed.

Lemma placeAll_of_ordered (s : jsstring) :
  ordered_rev (rev s) -> placeAll s [] = rev s.
Proof.
  unfold placeAll. induction s as [|c s IH] using rev_ind; [reflexivity|].
  rewrite rev_unit, fold_left_app. simpl. intros Hord.
  rewrite (IH (ordered_rev_tail _ _ Hord)).
  apply insertMark_ordered, Hord.
Qed.

Lemma canonicalOrder_idempotent (s : jsstring) :
  canonicalOrder (canonicalOrder s) = canonicalOrder s.
Proof.
  unfold canonicalOrder.
  rewrite placeAll_of_ordered; rewrite rev_involutive.
  - reflexivity.
  - apply placeAll_ordered. exact I.
Qed.

(** *** Composition *)

Lemma primaryComposite_sound (a b c : N) :
  primaryComposite a b = Some c -> canonicalDecomposition c = [a; b].
Proof.
  unfold primaryComposite.
  destruct (List.find _ COMPOSITIONS) as [[c' [a' b']]|] eqn:E; [|discriminate].
  cbn [fmap option_fmap option_map fst]. intros [= ->].
  apply find_some in E as [Hin Heq]. cbn [fst snd] in Heq.
  apply andb_true_iff in Heq as [Ha Hb].
  apply N.eqb_eq in Ha, Hb. subst a' b'.
  pose proof (proj1 (List.Forall_forall _ _) COMPOSITIONS_sound _ Hin) as H. cbn [fst snd] in H.
  unfold canonicalDecomposition. rewrite H. reflexivity.
Qed.

Lemma compose_step (a b : N) (r : jsstring) :
  compose (a :: b :: r) =
  match primaryComposite a b with
  | Some c => c :: compose r
  | None => a :: compose (b :: r)
  end.
Proof. reflexivity. Qed.

Lemma decompose_compose (s : jsstring) :
  Forall decomposed s -> decompose (compose s) = s.
Proof.
  assert (Hgen : forall n (s : jsstring),
             (length s <= n)%nat -> Forall decomposed s -> decompose (compose s) = s).
  { clear s. induction n as [|n IH]; intros s Hlen Hs.
    - destruct s; [reflexivity | simpl in Hlen; lia].
    - destruct s as [|a [|b r]]; [reflexivity | |].
      + simpl. unfold canonicalDecomposition.
        inversion Hs as [|? ? Ha _]; subst. rewrite Ha. reflexivity.
      + inversion Hs as [|? ? Ha Hr]; subst.
        inversion Hr as [|? ? Hb Hr']; subst.
        rewrite compose_step. destruct (primaryComposite a b) as [c|] eqn:E.
        * change (decompose (c :: compose r))
            with (canonicalDecomposition c ++ decompose (compose r)).
          rewrite (primaryComposite_sound _ _ _ E), IH; [reflexivity | | exact Hr'].
          simpl in Hlen. lia.
        * change (decompose (a :: compose (b :: r)))
            with (canonicalDecomposition a ++ decompose (compose (b :: r))).
          rewrite IH; [| simpl in Hlen |- *; lia | exact Hr].
          unfold canonicalDecomposition. rewrite Ha. reflexivity. }
  apply (Hgen (length s)). lia.
Qed.

(** The canonical pass is idempotent. *)
Lemma normalizeHindiText_idempotent (x : jsstring) :
  normalizeHindiText (normalizeHindiText x) = normalizeHindiText x.
Proof.
  unfold normalizeHindiText.
  assert (Hd : Forall decomposed (canonicalOrder (decompose x))).
  { eapply Permutation_Forall; [symmetry; apply canonicalOrder_Permutation|].
    apply decompose_decomposed. }
  rewrite (decompose_compose _ Hd), canonicalOrder_idempotent. reflexivity.
Qed.
End Normalizer.

(** ** The typing engine *)

Section EngineProperties.
Variable normalize : jsstring -> jsstring.
Variable compare : jsstring -> jsstring -> bool.
Variable keyMap : JsMap KeyMapping.
Variable targetText : jsstring.
Variable mode : TypingMode.
Variable duration : option N.

Lemma initial_invariant : cursor_invariant normalize targetText engine_initial.
Proof. split; simpl; [lia | constructor | lia]. Qed.

Lemma completed_iff (s : Engine) :
  cursor_invariant normalize targetText s -> (isCompleted normalize targetText s = true <-> currentIndex s = length (normalizedTarget normalize targetText)).
Proof.
  intros [Hi _ _]. unfold isCompleted. rewrite Nat.leb_le. lia.
Qed.

Lemma press_invariant (key : string) (modifiers : ModifierState) (s : Engine) :
  cursor_invariant normalize targetText s -> cursor_invariant normalize targetText (handleKeyPress normalize compare keyMap targetText key modifiers s).
Proof.
  intros Hs. unfold handleKeyPress.
  destruct (negb (Mapper.isTypeableKey keyMap key) || isCompleted normalize targetText s) eqn:Eg; [exact Hs|].
  apply orb_false_iff in Eg as [_ Ec]. unfold isCompleted in Ec.
  apply Nat.leb_gt in Ec. destruct Hs as [Hi He Ht].
  destruct (Mapper.getCharacterForKey keyMap key modifiers) as [|c0 char].
  - split; simpl; assumption.
  - split; simpl.
    + lia.
    + assert (Hmono : Forall (fun e => e < currentIndex s + 1) (errors s)).
      { eapply List.Forall_impl; [|exact He]. simpl. intros; lia. }
      match goal with |- context [if ?b then _ else _] => destruct b end.
      * exact Hmono.
      * apply Forall_app. split; [exact Hmono|]. repeat constructor. lia.
    + rewrite length_app. simpl. lia.
Qed.

Lemma handle_invariant (e : Event) (s : Engine) :
  cursor_invariant normalize targetText s -> cursor_invariant normalize targetText (handle normalize compare keyMap targetText mode duration e s).
Proof.
  intros Hs. destruct e; simpl.
  - apply press_invariant, Hs.
  - destruct (pendingFinish s); [exact Hs|]. destruct Hs; split; assumption.
  - destruct (timerDuration mode duration); [|exact Hs].
    destruct (running (timer s) && negb (expired (timer s))); [|exact Hs].
    destruct Hs; split; assumption.
  - split; simpl; [lia | constructor | lia].
Qed.

Lemma run_invariant (events : list Event) (s : Engine) :
  cursor_invariant normalize targetText s -> cursor_invariant normalize targetText (run normalize compare keyMap targetText mode duration events s).
Proof.
  unfold run. revert s. induction events as [|e events IH]; intros s Hs; simpl.
  - exact Hs.
  - apply IH, handle_invariant, Hs.
Qed.

Lemma Map_get_values (k : string) (keyMapping : KeyMapping) :
  Map_get keyMap k = Some keyMapping -> In keyMapping (Map_values keyMap).
Proof.
  unfold Map_values. induction keyMap as [|[k' v'] r IH]; simpl; [discriminate|].
  destruct (String.eqb k' k).
  - intros [= ->]. now left.
  - intros H. right. exact (IH H).
Qed.

(** With slots of one code unit the typed text is as long as the cursor is
    far; it is a slot of several code units that separates the two. *)
Lemma press_typed_length (key : string) (modifiers : ModifierState) (s : Engine) :
  single_units keyMap ->
  length (typedText s) = currentIndex s ->
  length (typedText (handleKeyPress normalize compare keyMap targetText key modifiers s))
  = currentIndex (handleKeyPress normalize compare keyMap targetText key modifiers s).
Proof.
  intros Hone Hs. unfold handleKeyPress.
  destruct (negb (Mapper.isTypeableKey keyMap key) || isCompleted normalize targetText s);
    [exact Hs|].
  destruct (Mapper.getCharacterForKey keyMap key modifiers) as [|c0 char] eqn:Ec;
    simpl; [exact Hs|].
  unfold Mapper.getCharacterForKey in Ec.
  destruct (Map_get keyMap key) as [keyMapping|] eqn:Eg; [|discriminate].
  pose proof (Hone keyMapping modifiers (Map_get_values _ _ Eg)) as Hlen.
  rewrite Ec in Hlen. simpl in Hlen.
  rewrite length_app. simpl. lia.
Qed.

Lemma run_typed_length (events : list Event) (s : Engine) :
  single_units keyMap ->
  length (typedText s) = currentIndex s ->
  length (typedText (run normalize compare keyMap targetText mode duration events s))
  = currentIndex (run normalize compare keyMap targetText mode duration events s).
Proof.
  intros Hone. unfold run. revert s.
  induction events as [|e events IH]; intros s Hs; simpl; [exact Hs|].
  apply IH. destruct e; simpl.
  - apply press_typed_length; assumption.
  - destruct (pendingFinish s); [exact Hs | exact Hs].
  - destruct (timerDuration mode duration); [|exact Hs].
    destruct (running (timer s) && negb (expired (timer s))); exact Hs.
  - reflexivity.
Qed.

Lemma initial_accounted : emissions_accounted normalize targetText engine_initial.
Proof.
  unfold emissions_accounted, textConsumed, isCompleted. simpl.
  destruct (length (normalizedTarget normalize targetText)); reflexivity.
Qed.

Lemma press_accounted (key : string) (modifiers : ModifierState) (s : Engine) :
  emissions_accounted normalize targetText s -> emissions_accounted normalize targetText (handleKeyPress normalize compare keyMap targetText key modifiers s).
Proof.
  unfold emissions_accounted, textConsumed, handleKeyPress. intros Hs.
  destruct (negb (Mapper.isTypeableKey keyMap key) || isCompleted normalize targetText s) eqn:Eg; [exact Hs|].
  apply orb_false_iff in Eg as [_ Ec]. rewrite Ec in Hs. simpl in Hs.
  assert (Hexp : expired (if isActive s then timer s else timer_start (timer s))
                 = expired (timer s)) by (destruct (isActive s); reflexivity).
  unfold isCompleted in Ec |- *. apply Nat.leb_gt in Ec.
  destruct (Mapper.getCharacterForKey keyMap key modifiers) as [|c0 char]; simpl.
  - rewrite Hexp.
    replace (length (normalizedTarget normalize targetText) <=? currentIndex s) with false
      by (symmetry; apply Nat.leb_gt; exact Ec).
    exact Hs.
  - rewrite Hexp.
    replace (0 <? length (normalizedTarget normalize targetText)) with true by (symmetry; apply Nat.ltb_lt; lia).
    rewrite andb_true_r.
    destruct (length (normalizedTarget normalize targetText) <=? currentIndex s + 1); lia.
Qed.

Lemma handle_accounted (e : Event) (s : Engine) :
  e <> Reset -> emissions_accounted normalize targetText s -> emissions_accounted normalize targetText (handle normalize compare keyMap targetText mode duration e s).
Proof.
  intros Hne Hs. destruct e; simpl.
  - apply press_accounted, Hs.
  - destruct (pendingFinish s) as [|n] eqn:Ep; [exact Hs|].
    unfold emissions_accounted, textConsumed, isCompleted in *. simpl. lia.
  - destruct (timerDuration mode duration); [|exact Hs].
    destruct (running (timer s) && negb (expired (timer s))) eqn:Er; [|exact Hs].
    apply andb_true_iff in Er as [_ Er]. apply negb_true_iff in Er.
    unfold emissions_accounted, textConsumed, isCompleted in *. simpl.
    rewrite Er in Hs. lia.
  - congruence.
Qed.

Lemma run_accounted (events : list Event) (s : Engine) :
  Forall (fun e => e <> Reset) events ->
  emissions_accounted normalize targetText s -> emissions_accounted normalize targetText (run normalize compare keyMap targetText mode duration events s).
Proof.
  unfold run. intros Hev. revert s.
  induction Hev as [|e events He _ IH]; intros s Hs; simpl.
  - exact Hs.
  - apply IH, handle_accounted; assumption.
Qed.
End EngineProperties.

(** C1, as the code has it.  In a session, that is from the initial state and
    up to a reset, [isCompleted] holds exactly when the cursor is at the length
    of the normalized target.  The final statistics are emitted by [finish],
    and every call of [finish], made or still scheduled, has its own cause:
    one for the keystroke that consumed a target that is not empty, and one for
    the duration callback of the timer.  The two do not exclude each other. *)
Theorem completion_and_emissions
    (normalize : jsstring -> jsstring) (compare : jsstring -> jsstring -> bool)
    (keyMap : JsMap KeyMapping) (targetText : jsstring)
    (mode : TypingMode) (duration : option N) (events : list Event) :
  Forall (fun e => e <> Reset) events ->
  let s := run normalize compare keyMap targetText mode duration events engine_initial in
  (isCompleted normalize targetText s = true <->
   currentIndex s = length (normalizedTarget normalize targetText)) /\
  completions s + pendingFinish s =
  (if textConsumed normalize targetText s then 1 else 0) +
  (if expired (timer s) then 1 else 0).
Proof.
  intros Hev s. split.
  - apply completed_iff. apply run_invariant, initial_invariant.
  - apply run_accounted; [exact Hev | apply initial_accounted].
Qed.

Lemma completion_and_emissions_witness :
  let s := run normalizeHindiText compareHindiChars KEY_MAP (u "अ") learn None
             [KeyPress "KeyV" Normal; FinishTimeout] engine_initial in
  (isCompleted normalizeHindiText (u "अ") s = true <->
   currentIndex s = length (normalizedTarget normalizeHindiText (u "अ"))) /\
  completions s + pendingFinish s =
  (if textConsumed normalizeHindiText (u "अ") s then 1 else 0) +
  (if expired (timer s) then 1 else 0).
Proof.
  apply (completion_and_emissions normalizeHindiText compareHindiChars KEY_MAP (u "अ")
           learn None [KeyPress "KeyV" Normal; FinishTimeout]).
  repeat constructor; discriminate.
Defined.

(** The claim of C1 fails in both directions.  With an empty target the
    session is completed from the start and nothing is ever emitted; in
    practice mode the timer emits when it expires and the keystroke that
    consumes the target emits once more. *)
Lemma final_statistics_not_once :
  (let s := run normalizeHindiText compareHindiChars KEY_MAP [] learn None
              [KeyPress "KeyV" Normal; FinishTimeout; TimerElapsed] engine_initial in
   isCompleted normalizeHindiText [] s = true /\
   completions s = 0 /\ pendingFinish s = 0) /\
  (let s := run normalizeHindiText compareHindiChars KEY_MAP (u "अब") practice (Some 60%N)
              [KeyPress "KeyV" Normal; TimerElapsed; KeyPress "KeyC" Normal; FinishTimeout]
              engine_initial in
   isCompleted normalizeHindiText (u "अब") s = true /\
   errors s = [] /\
   completions s = 2).
Proof.
  split; vm_compute; repeat split; reflexivity.
Qed.

(** C2 at a conjunct key.  Under the Remington GAIL layout Backquote with
    Shift resolves to the three code units of the conjunct DA + virama + YA;
    one keystroke moves the cursor by one and extends the typed text by
    three. *)
Theorem conjunct_keystroke_lengths :
  let s := handleKeyPress normalizeHindiText compareHindiChars KEY_MAP (u "द्य")
             "Backquote" Shift engine_initial in
  getCharacterForKey "Backquote" Shift = u "द्य" /\
  isTypeableKey "Backquote" = true /\
  currentIndex s = 1 /\
  length (typedText s) = 3 /\
  errors s = [0].
Proof.
  vm_compute. repeat split; reflexivity.
Qed.

(** C4, as the tables have it.  It is the INSCRIPT layout that maps KeyE with
    Shift to the letter AA, and there the one keystroke matches the target,
    records no error and completes the session.  Under the Remington GAIL
    layout KeyE with Shift resolves to MA + virama, no slot holds AA, and the
    keystroke is recorded as an error at position 0. *)
Theorem KeyE_Shift_on_AA :
  (let s := handleKeyPress normalizeHindiText compareHindiChars INSCRIPT_KEY_MAP (u "आ")
              "KeyE" Shift engine_initial in
   Mapper.getCharacterForKey INSCRIPT_KEY_MAP "KeyE" Shift = u "आ" /\
   currentIndex s = 1 /\ errors s = [] /\
   isCompleted normalizeHindiText (u "आ") s = true) /\
  (let s := handleKeyPress normalizeHindiText compareHindiChars KEY_MAP (u "आ")
              "KeyE" Shift engine_initial in
   getCharacterForKey "KeyE" Shift = u "म्" /\
   findKeysForCharacter (u "आ") = [] /\
   currentIndex s = 1 /\ errors s = [0] /\
   isCompleted normalizeHindiText (u "आ") s = true).
Proof.
  split; vm_compute; repeat split; reflexivity.
Qed.

(** The claim of C4 fails: under the Remington GAIL layout KeyE with Shift does
    not resolve to AA, and the keystroke is not a match. *)
Lemma KeyE_Shift_remington_gail :
  getCharacterForKey "KeyE" Shift = [0x92E; 0x94D]%N /\
  u "आ" = [0x906]%N /\
  getCharacterForKey "KeyE" Shift <> u "आ" /\
  errors (handleKeyPress normalizeHindiText compareHindiChars KEY_MAP (u "आ")
            "KeyE" Shift engine_initial) <> [].
Proof.
  split; [reflexivity|]. split; [reflexivity|]. split; vm_compute; discriminate.
Qed.

(** * Further properties of the resolver *)

Lemma Map_set_keys {V : Type} (m : JsMap V) (k : string) (v : V) (x : string) :
  In x (List.map fst (Map_set m k v)) <-> In x (List.map fst m) \/ x = k.
Proof.
  induction m as [|[k' v'] r IH]; simpl.
  - intuition congruence.
  - destruct (String.eqb_spec k' k) as [->|Hne]; simpl.
    + intuition congruence.
    + rewrite IH. tauto.
Qed.

Lemma Map_set_fresh {V : Type} (m : JsMap V) (k : string) (v : V) :
  ~ In k (List.map fst m) -> Map_set m k v = m ++ [(k, v)].
Proof.
  induction m as [|[k' v'] r IH]; simpl; [reflexivity|].
  intros Hnot. destruct (String.eqb_spec k' k) as [->|Hne].
  - exfalso. apply Hnot. now left.
  - rewrite IH; [reflexivity|]. tauto.
Qed.

Lemma Map_set_wf (m : JsMap KeyMapping) (v : KeyMapping) :
  Map_wf m -> Map_wf (Map_set m (key v) v).
Proof.
  unfold Map_wf. induction m as [|[k' v'] r IH]; simpl.
  - intros _. split; repeat constructor. intros [].
  - intros [Hnd Hall].
    inversion Hnd as [|? ? Hnotin Hnd']; subst.
    inversion Hall as [|? ? Hk Hall']; subst. simpl in Hk.
    destruct (String.eqb_spec k' (key v)) as [Heq|Hne]; simpl.
    + split; [exact Hnd|]. constructor; [simpl; congruence | exact Hall'].
    + destruct (IH (conj Hnd' Hall')) as [IH1 IH2]. split.
      * constructor; [|exact IH1]. rewrite Map_set_keys. intros [H|H]; [tauto | congruence].
      * constructor; [exact Hk | exact IH2].
Qed.

Lemma keyMapOf_wf (layout : KeyboardLayout) : Map_wf (keyMapOf layout).
Proof.
  unfold keyMapOf, Map_new.
  assert (Hgen : forall (l : list KeyMapping) (acc : JsMap KeyMapping),
             Map_wf acc ->
             Map_wf (fold_left (fun m e => Map_set m (fst e) (snd e))
                       (List.map (fun k => (key k, k)) l) acc)).
  { induction l as [|km l IH]; intros acc Hacc; simpl; [exact Hacc|].
    apply IH, Map_set_wf, Hacc. }
  apply Hgen. split; constructor.
Qed.

Lemma Map_get_of_entry {V : Type} (m : JsMap V) (k : string) (v : V) :
  List.NoDup (List.map fst m) -> In (k, v) m -> Map_get m k = Some v.
Proof.
  induction m as [|[k' v'] r IH]; simpl; [tauto|].
  intros Hnd Hin. inversion Hnd as [|? ? Hnotin Hnd']; subst.
  destruct (String.eqb_spec k' k) as [->|Hne].
  - destruct Hin as [Heq|Hin]; [congruence|].
    exfalso. apply Hnotin. change k with (fst (k, v)). now apply in_map.
  - destruct Hin as [Heq|Hin]; [congruence | auto].
Qed.

Lemma Map_wf_values (m : JsMap KeyMapping) (v : KeyMapping) :
  Map_wf m -> (In v (Map_values m) <-> Map_get m (key v) = Some v).
Proof.
  intros [Hnd Hall]. split.
  - unfold Map_values. rewrite in_map_iff. intros ([k v'] & Heq & Hin).
    simpl in Heq. subst v'.
    pose proof (proj1 (List.Forall_forall _ _) Hall _ Hin) as Hk. simpl in Hk.
    rewrite Hk. now apply Map_get_of_entry.
  - apply Map_get_values.
Qed.

(** X1.  Lookup and resolution are inverse to each other on the index of a
    layout: the candidates that [findKeysForCharacter] returns for a
    character are exactly the pairs of a mapped key and a modifier state that
    [getCharacterForKey] resolves to that character. *)
Theorem lookup_inverts_resolution (layout : KeyboardLayout) (character : jsstring)
    (k : string) (modifierState : ModifierState) :
  (exists h, In h (Mapper.findKeysForCharacter (keyMapOf layout) character) /\
             hit_key h = k /\ hit_modifierState h = modifierState) <->
  (Map_has (keyMapOf layout) k = true /\
   Mapper.getCharacterForKey (keyMapOf layout) k modifierState = character).
Proof.
  pose proof (keyMapOf_wf layout) as Hwf.
  rewrite findKeysForCharacter_flat_map. unfold Mapper.getCharacterForKey. split.
  - intros (h & Hin & <- & <-). apply in_flat_map in Hin as (km & Hkm & Hh).
    apply In_hitsOf in Hh as (ms & Hs & ->). simpl.
    apply (Map_wf_values _ _ Hwf) in Hkm. unfold Map_has. rewrite Hkm. auto.
  - intros [Hhas Hres]. apply Map_has_is_Some in Hhas as [km Hget].
    rewrite Hget in Hres.
    assert (Hkm : In km (Map_values (keyMapOf layout))) by (eapply Map_get_values, Hget).
    assert (Hk : key km = k).
    { apply (Map_wf_values _ _ Hwf) in Hkm.
      destruct Hwf as [Hnd Hall].
      assert (Hin : In (k, km) (keyMapOf layout)).
      { clear -Hget. induction (keyMapOf layout) as [|[k' v'] r IH]; simpl in *; [discriminate|].
        destruct (String.eqb_spec k' k) as [->|Hne].
        - left. congruence.
        - right. auto. }
      exact (proj1 (List.Forall_forall _ _) Hall _ Hin). }
    exists (hit km modifierState). split; [|split; [exact Hk | reflexivity]].
    apply in_flat_map. exists km. split; [exact Hkm|]. apply In_hitsOf. eauto.
Qed.

Lemma Map_new_distinct {V : Type} (es : list (string * V)) :
  List.NoDup (List.map fst es) -> Map_new es = es.
Proof.
  unfold Map_new.
  assert (Hgen : forall (es acc : list (string * V)),
             List.NoDup (List.map fst (acc ++ es)) ->
             fold_left (fun m e => Map_set m (fst e) (snd e)) es acc = acc ++ es).
  { clear es. induction es as [|[k v] es IH]; intros acc Hnd; simpl.
    - now rewrite app_nil_r.
    - rewrite Map_set_fresh.
      + rewrite IH; rewrite <- app_assoc; [reflexivity | exact Hnd].
      + rewrite List.map_app in Hnd. simpl in Hnd.
        apply NoDup_remove_2 in Hnd. intros Hin. apply Hnd.
        apply in_or_app. now left. }
  intros Hnd. apply (Hgen es []). exact Hnd.
Qed.

Lemma hitsOf_by_states (character : jsstring) (keyMapping : KeyMapping) :
  Mapper.hitsOf character keyMapping =
  List.map (hit keyMapping)
    (List.filter (fun modifierState => jsstring_eqb (slot keyMapping modifierState) character)
       MODIFIER_STATES).
Proof.
  unfold Mapper.hitsOf, MODIFIER_STATES, hit. simpl.
  destruct (jsstring_eqb (normal keyMapping) character),
           (jsstring_eqb (shift keyMapping) character),
           (jsstring_eqb (altgr keyMapping) character),
           (jsstring_eqb (altgrShift keyMapping) character); reflexivity.
Qed.

Lemma Map_values_distinct (layout : KeyboardLayout) :
  List.NoDup (List.map key (concat (rows layout))) ->
  Map_values (keyMapOf layout) = concat (rows layout).
Proof.
  intros Hnd. unfold keyMapOf, Map_values. rewrite Map_new_distinct.
  - rewrite List.map_map. simpl. apply List.map_id.
  - rewrite List.map_map. simpl. exact Hnd.
Qed.

(** X2.  For a layout whose keys are distinct the index loses nothing and
    keeps the order: the candidates for a character come in the order of the
    rows, within a row in the order of the keys, and for one key in the order
    normal, shift, altgr, altgr-shift. *)
Theorem findKeysForCharacter_in_row_order (layout : KeyboardLayout) (character : jsstring) :
  List.NoDup (List.map key (concat (rows layout))) ->
  Map_values (keyMapOf layout) = concat (rows layout) /\
  Mapper.findKeysForCharacter (keyMapOf layout) character =
  flat_map
    (fun keyMapping =>
       List.map (hit keyMapping)
         (List.filter
            (fun modifierState => jsstring_eqb (slot keyMapping modifierState) character)
            MODIFIER_STATES))
    (concat (rows layout)).
Proof.
  intros Hnd.
  pose proof (Map_values_distinct layout Hnd) as Hv.
  split; [exact Hv|].
  rewrite findKeysForCharacter_flat_map, Hv.
  apply flat_map_ext. intros km. apply hitsOf_by_states.
Qed.

Lemma findKeysForCharacter_in_row_order_witness :
  Map_values (keyMapOf REMINGTON_GAIL_LAYOUT) = concat (rows REMINGTON_GAIL_LAYOUT) /\
  Mapper.findKeysForCharacter (keyMapOf REMINGTON_GAIL_LAYOUT) (u "श") =
  flat_map
    (fun keyMapping =>
       List.map (hit keyMapping)
         (List.filter
            (fun modifierState => jsstring_eqb (slot keyMapping modifierState) (u "श"))
            MODIFIER_STATES))
    (concat (rows REMINGTON_GAIL_LAYOUT)).
Proof.
  apply (findKeysForCharacter_in_row_order REMINGTON_GAIL_LAYOUT (u "श")).
  apply REMINGTON_GAIL_keys_distinct.
Defined.

(** X3.  [getAllCharactersForKey] returns exactly the characters that the key
    resolves to under some modifier state, the empty string left out; for a
    key that is not mapped it returns nothing. *)
Theorem getAllCharactersForKey_resolved (keyMap : JsMap KeyMapping) (k : string)
    (character : jsstring) :
  In character (Mapper.getAllCharactersForKey keyMap k) <->
  character <> [] /\
  exists modifierState, Mapper.getCharacterForKey keyMap k modifierState = character.
Proof.
  unfold Mapper.getAllCharactersForKey, Mapper.getCharacterForKey.
  destruct (Map_get keyMap k) as [km|].
  - rewrite filter_In. simpl. split.
    + intros [Hin Hne]. split.
      * intros ->. discriminate.
      * destruct Hin as [H|[H|[H|[H|[]]]]];
          [exists Normal | exists Shift | exists AltGr | exists AltGrShift]; exact H.
    + intros [Hne [ms Hs]]. split.
      * destruct ms; simpl in Hs; tauto.
      * destruct character; [congruence | reflexivity].
  - simpl. split; [tauto|]. intros [Hne [_ Hs]]. congruence.
Qed.

(** X4.  A key combination is valid exactly when the character it resolves
    to is among the characters of the key. *)
Theorem isValidKeyCombination_among_characters (keyMap : JsMap KeyMapping) (k : string)
    (modifierState : ModifierState) :
  Mapper.isValidKeyCombination keyMap k modifierState = true <->
  In (Mapper.getCharacterForKey keyMap k modifierState)
     (Mapper.getAllCharactersForKey keyMap k).
Proof.
  unfold Mapper.isValidKeyCombination, Mapper.getAllCharactersForKey,
    Mapper.getCharacterForKey.
  destruct (Map_get keyMap k) as [km|].
  - rewrite filter_In. split.
    + intros H. split; [|exact H]. destruct modifierState; simpl; tauto.
    + tauto.
  - simpl. split; [discriminate | tauto].
Qed.

(** X5.  The modifier state depends only on which modifier keys are held:
    two sets of pressed keys that agree on the keys of [isModifierKey] give
    the same state. *)
Theorem getModifierState_only_modifiers (pressed1 pressed2 : JsSet) :
  (forall k, isModifierKey k = true -> Set_has pressed1 k = Set_has pressed2 k) ->
  getModifierState pressed1 = getModifierState pressed2.
Proof.
  intros H. unfold getModifierState, Mapper.getModifierState.
  rewrite (H "ShiftLeft" eq_refl), (H "ShiftRight" eq_refl), (H "AltRight" eq_refl).
  reflexivity.
Qed.

Lemma getModifierState_only_modifiers_witness :
  getModifierState ["KeyA"; "ShiftLeft"; "Space"] = getModifierState ["ShiftLeft"].
Proof.
  apply (getModifierState_only_modifiers ["KeyA"; "ShiftLeft"; "Space"] ["ShiftLeft"]).
  intros k Hk. apply isModifierKey_In in Hk.
  repeat (destruct Hk as [<-|Hk]; [reflexivity|]). destruct Hk.
Defined.

(** ** Rows, fingers and the two tables *)

Lemma getKeyRow_from_spec (k : string) (rest : list (list KeyMapping)) (i : Z) :
  (0 <= i)%Z ->
  let r := LayoutMapper.getKeyRow_from rest i k in
  (r = (-1)%Z /\ forall km, In km (concat rest) -> key km <> k) \/
  ((i <= r < i + Z.of_nat (length rest))%Z /\
   (exists km, In km (nth (Z.to_nat (r - i)) rest []) /\ key km = k) /\
   forall j, (i <= j < r)%Z ->
             forall km, In km (nth (Z.to_nat (j - i)) rest []) -> key km <> k).
Proof.
  revert i. induction rest as [|row rest IH]; intros i Hi; simpl.
  - left. split; [reflexivity | tauto].
  - destruct (existsb (fun k0 => String.eqb (key k0) k) row) eqn:E.
    + right. split; [lia|]. split.
      * apply existsb_exists in E as (km & Hin & Heq). apply String.eqb_eq in Heq.
        exists km. replace (i - i)%Z with 0%Z by lia. simpl. tauto.
      * intros j Hj. lia.
    + assert (Hrow : forall km, In km row -> key km <> k).
      { intros km Hin Heq.
        assert (Ht : existsb (fun k0 => String.eqb (key k0) k) row = true).
        { apply existsb_exists. exists km. split; [exact Hin | now apply String.eqb_eq]. }
        congruence. }
      destruct (IH (i + 1)%Z ltac:(lia)) as [[Hr Hnone] | (Hr & Hex & Hbefore)].
      * left. split; [exact Hr|]. intros km Hin. apply in_app_or in Hin as [Hin|Hin]; auto.
      * right. split; [lia|]. split.
        -- destruct Hex as (km & Hin & Heq). exists km. split; [|exact Heq].
           replace (Z.to_nat (LayoutMapper.getKeyRow_from rest (i + 1) k - i))
             with (S (Z.to_nat (LayoutMapper.getKeyRow_from rest (i + 1) k - (i + 1))))
             by lia.
           exact Hin.
        -- intros j Hj km Hin.
           destruct (Z.eq_dec j i) as [->|Hne].
           ++ replace (i - i)%Z with 0%Z in Hin by lia. simpl in Hin. auto.
           ++ replace (Z.to_nat (j - i)) with (S (Z.to_nat (j - (i + 1)))) in Hin by lia.
              apply (Hbefore j); [lia | exact Hin].
Qed.

Lemma getKeysInRow_nth (layout : KeyboardLayout) (i : Z) :
  (0 <= i)%Z ->
  LayoutMapper.getKeysInRow layout i = nth (Z.to_nat i) (rows layout) [].
Proof.
  intros Hi. unfold LayoutMapper.getKeysInRow.
  destruct (i <? 0)%Z eqn:E1; [apply Z.ltb_lt in E1; lia|]. simpl.
  destruct (Z.of_nat (length (rows layout)) <=? i)%Z eqn:E2; [|reflexivity].
  apply Z.leb_le in E2. rewrite nth_overflow; [reflexivity | lia].
Qed.

(** X6.  [getKeyRow] returns [-1] exactly when no row holds the key;
    otherwise it returns the index of a row, [getKeysInRow] of that index
    holds the key, and no earlier row does. *)
Theorem getKeyRow_first_row (layout : KeyboardLayout) (k : string) :
  let r := LayoutMapper.getKeyRow layout k in
  (r = (-1)%Z /\ forall km, In km (concat (rows layout)) -> key km <> k) \/
  ((0 <= r < Z.of_nat (length (rows layout)))%Z /\
   (exists km, In km (LayoutMapper.getKeysInRow layout r) /\ key km = k) /\
   forall i, (0 <= i < r)%Z ->
             forall km, In km (LayoutMapper.getKeysInRow layout i) -> key km <> k).
Proof.
  unfold LayoutMapper.getKeyRow.
  destruct (getKeyRow_from_spec k (rows layout) 0%Z ltac:(lia))
    as [[Hr Hnone] | (Hr & Hex & Hbefore)].
  - left. auto.
  - right. split; [lia|]. split.
    + destruct Hex as (km & Hin & Heq). exists km. split; [|exact Heq].
      rewrite getKeysInRow_nth by lia.
      rewrite Z.sub_0_r in Hin. exact Hin.
    + intros i Hi km Hin. rewrite getKeysInRow_nth in Hin by lia.
      apply (Hbefore i); [lia|]. rewrite Z.sub_0_r. exact Hin.
Qed.

Lemma Map_has_keys {V : Type} (m : JsMap V) (k : string) :
  Map_has m k = true <-> In k (List.map fst m).
Proof.
  unfold Map_has. induction m as [|[k' v'] r IH]; simpl.
  - split; [discriminate | tauto].
  - destruct (String.eqb_spec k' k) as [->|Hne].
    + split; [now left | reflexivity].
    + rewrite IH. split; [now right | intros [H|H]; [congruence | exact H]].
Qed.

Lemma Map_new_keys {V : Type} (es : list (string * V)) (k : string) :
  In k (List.map fst (Map_new es)) <-> In k (List.map fst es).
Proof.
  unfold Map_new.
  assert (Hgen : forall (es acc : list (string * V)),
             In k (List.map fst (fold_left (fun m e => Map_set m (fst e) (snd e)) es acc)) <->
             In k (List.map fst acc) \/ In k (List.map fst es)).
  { clear es. induction es as [|[k0 v0] es IH]; intros acc; simpl.
    - tauto.
    - rewrite IH, Map_set_keys. intuition congruence. }
  rewrite Hgen. simpl. tauto.
Qed.

Lemma Map_has_keyMapOf (layout : KeyboardLayout) (k : string) :
  Map_has (keyMapOf layout) k = true <-> In k (List.map key (concat (rows layout))).
Proof.
  rewrite Map_has_keys. unfold keyMapOf. rewrite Map_new_keys, List.map_map. simpl.
  reflexivity.
Qed.

(** X7.  A key has a mapping in the index of a layout exactly when it has a
    row in that layout. *)
Theorem findKeyMapping_iff_row (layout : KeyboardLayout) (k : string) :
  Mapper.findKeyMapping (keyMapOf layout) k <> None <->
  (0 <= LayoutMapper.getKeyRow layout k)%Z.
Proof.
  assert (Hhas : Mapper.findKeyMapping (keyMapOf layout) k <> None <->
                 In k (List.map key (concat (rows layout)))).
  { rewrite <- Map_has_keyMapOf. unfold Map_has, Mapper.findKeyMapping.
    destruct (Map_get (keyMapOf layout) k); split; congruence. }
  rewrite Hhas, in_map_iff.
  unfold LayoutMapper.getKeyRow.
  destruct (getKeyRow_from_spec k (rows layout) 0%Z ltac:(lia))
    as [[Hr Hnone] | (Hr & Hex & _)].
  - rewrite Hr. split; [|lia]. intros (km & Heq & Hin). exfalso. eapply Hnone; eassumption.
  - split; [lia|]. intros _. destruct Hex as (km & Hin & Heq). exists km. split; [exact Heq|].
    rewrite Z.sub_0_r in Hin.
    apply in_concat.
    exists (nth (Z.to_nat (LayoutMapper.getKeyRow_from (rows layout) 0 k)) (rows layout) []).
    split; [|exact Hin]. apply nth_In. lia.
Qed.

(** X8.  [getFingerName] answers with one of the ten names exactly for the
    integers from 0 to 9, which get pairwise distinct names, and with
    ['Unknown'] for every other number: a negative one, one from ten on, a
    fraction, an infinity or NaN. *)
Theorem getFingerName_range (f g : JsNumber) :
  (getFingerName f = "Unknown" <-> forall z, f = JsInteger z -> (z < 0 \/ 10 <= z)%Z) /\
  (getFingerName f <> "Unknown" -> getFingerName f = getFingerName g -> f = g).
Proof.
  assert (Hint : forall z, (0 <= z < 10)%Z ->
                           exists n, n < 10 /\ z = Z.of_nat n /\
                                     getFingerName (JsInteger z) = nth n fingerNames "Unknown").
  { intros z Hz. exists (Z.to_nat z). split; [lia|]. split; [lia|].
    unfold getFingerName, fingerNameAt.
    replace (z <? 0)%Z with false by (symmetry; apply Z.ltb_ge; lia).
    assert (Hn : Z.to_nat z < length fingerNames) by (simpl; lia).
    destruct (nth_error fingerNames (Z.to_nat z)) as [name_|] eqn:E.
    - symmetry. apply nth_error_nth. exact E.
    - apply nth_error_None in E. lia. }
  assert (Hout : forall z, (z < 0 \/ 10 <= z)%Z -> getFingerName (JsInteger z) = "Unknown").
  { intros z Hz. unfold getFingerName, fingerNameAt.
    destruct (z <? 0)%Z eqn:E; [reflexivity|]. apply Z.ltb_ge in E.
    replace (nth_error fingerNames (Z.to_nat z)) with (@None string); [reflexivity|].
    symmetry. apply nth_error_None. simpl. lia. }
  assert (Hnames : forall n m, n < 10 -> m < 10 ->
                     nth n fingerNames "Unknown" = nth m fingerNames "Unknown" -> n = m).
  { intros n m Hn Hm.
    do 10 (destruct n as [|n];
           [do 10 (destruct m as [|m]; [first [reflexivity | discriminate]|]); lia|]).
    lia. }
  assert (Hknown : forall n, n < 10 -> nth n fingerNames "Unknown" <> "Unknown").
  { intros n Hn. do 10 (destruct n as [|n]; [discriminate|]). lia. }
  assert (Hcase : forall h, getFingerName h <> "Unknown" ->
                            exists z, h = JsInteger z /\ (0 <= z < 10)%Z).
  { intros [z|] Hh; [|exfalso; apply Hh; reflexivity].
    exists z. split; [reflexivity|].
    destruct (Z_lt_dec z 0) as [Hl|Hl]; [exfalso; apply Hh, Hout; lia|].
    destruct (Z_le_dec 10 z) as [Hg|Hg]; [exfalso; apply Hh, Hout; lia|]. lia. }
  split.
  - split.
    + intros Hu z ->.
      destruct (Z_lt_dec z 0) as [Hl|Hl]; [lia|].
      destruct (Z_le_dec 10 z) as [Hg|Hg]; [lia|].
      destruct (Hint z ltac:(lia)) as (n & Hn & _ & Hname).
      rewrite Hname in Hu. exfalso. exact (Hknown n Hn Hu).
    + intros Hall. destruct f as [z|]; [|reflexivity]. apply Hout, (Hall z eq_refl).
  - intros Hf Heq.
    assert (Hg : getFingerName g <> "Unknown") by congruence.
    destruct (Hcase f Hf) as (zf & -> & Hzf). destruct (Hcase g Hg) as (zg & -> & Hzg).
    destruct (Hint zf Hzf) as (n & Hn & -> & Hnf).
    destruct (Hint zg Hzg) as (m & Hm & -> & Hng).
    rewrite Hnf, Hng in Heq. f_equal. f_equal. exact (Hnames n m Hn Hm Heq).
Qed.

Lemma getKeyRow_from_keys (rows1 rows2 : list (list KeyMapping)) (i : Z) (k : string) :
  List.map (List.map key) rows1 = List.map (List.map key) rows2 ->
  LayoutMapper.getKeyRow_from rows1 i k = LayoutMapper.getKeyRow_from rows2 i k.
Proof.
  revert rows2 i. induction rows1 as [|r1 rows1 IH]; intros [|r2 rows2] i H;
    simpl in *; try discriminate; [reflexivity|].
  injection H as Hr Hrest.
  assert (He : existsb (fun k0 => String.eqb (key k0) k) r1
               = existsb (fun k0 => String.eqb (key k0) k) r2).
  { transitivity (existsb (fun x => String.eqb x k) (List.map key r1)).
    - clear. induction r1; simpl; [reflexivity | now rewrite IHr1].
    - rewrite Hr. clear. induction r2; simpl; [reflexivity | now rewrite IHr2]. }
  rewrite He. destruct (existsb _ r2); [reflexivity | now apply IH].
Qed.

Lemma Map_get_map {V W : Type} (f : V -> W) (m : JsMap V) (k : string) :
  Map_get (List.map (fun e => (fst e, f (snd e))) m) k = f <$> Map_get m k.
Proof.
  induction m as [|[k' v'] r IH]; simpl; [reflexivity|].
  destruct (String.eqb k' k); [reflexivity | exact IH].
Qed.

(** X9.  The two layouts lay the same physical keys out in the same places:
    a key is typeable in one exactly when it is in the other, it sits in the
    same row, and it has the same finger, hand and label. *)
Theorem layouts_share_physical_keys (k : string) :
  Mapper.isTypeableKey KEY_MAP k = Mapper.isTypeableKey INSCRIPT_KEY_MAP k /\
  LayoutMapper.getKeyRow REMINGTON_GAIL_LAYOUT k = LayoutMapper.getKeyRow INSCRIPT_LAYOUT k /\
  (fun m => (finger m, hand m, label m)) <$> Mapper.findKeyMapping KEY_MAP k =
  (fun m => (finger m, hand m, label m)) <$> Mapper.findKeyMapping INSCRIPT_KEY_MAP k.
Proof.
  assert (Hmeta : List.map (fun e => (fst e, (finger (snd e), hand (snd e), label (snd e)))) KEY_MAP
                  = List.map (fun e => (fst e, (finger (snd e), hand (snd e), label (snd e))))
                      INSCRIPT_KEY_MAP)
    by (vm_compute; reflexivity).
  assert (Hthird : (fun m => (finger m, hand m, label m)) <$> Mapper.findKeyMapping KEY_MAP k =
                   (fun m => (finger m, hand m, label m)) <$> Mapper.findKeyMapping INSCRIPT_KEY_MAP k).
  { unfold Mapper.findKeyMapping.
    rewrite <- (Map_get_map (fun m => (finger m, hand m, label m)) KEY_MAP),
            <- (Map_get_map (fun m => (finger m, hand m, label m)) INSCRIPT_KEY_MAP).
    rewrite Hmeta. reflexivity. }
  split; [|split; [|exact Hthird]].
  - unfold Mapper.isTypeableKey, Map_has. unfold Mapper.findKeyMapping in Hthird.
    destruct (Map_get KEY_MAP k), (Map_get INSCRIPT_KEY_MAP k);
      try discriminate; reflexivity.
  - unfold LayoutMapper.getKeyRow. apply getKeyRow_from_keys. vm_compute. reflexivity.
Qed.

Lemma INSCRIPT_no_altgr_layer (k : string) :
  Mapper.getCharacterForKey INSCRIPT_KEY_MAP k AltGr = [] /\
  Mapper.getCharacterForKey INSCRIPT_KEY_MAP k AltGrShift = [].
Proof.
  assert (Hall : forallb (fun m => jsstring_eqb (altgr m) [] && jsstring_eqb (altgrShift m) [])
                   (Map_values INSCRIPT_KEY_MAP) = true) by (vm_compute; reflexivity).
  unfold Mapper.getCharacterForKey.
  destruct (Map_get INSCRIPT_KEY_MAP k) as [km|] eqn:E; [|split; reflexivity].
  apply Map_get_values in E.
  pose proof (proj1 (forallb_forall _ _) Hall km E) as H.
  apply andb_true_iff in H as [H1 H2]. apply jsstring_eqb_eq in H1, H2. simpl. tauto.
Qed.

(** X10.  The INSCRIPT layout has no AltGr layer: with AltRight held no key
    resolves to a character, and the engine records nothing for such a
    keystroke, whatever the key and the state. *)
Theorem INSCRIPT_AltGr_types_nothing
    (normalize : jsstring -> jsstring) (compare : jsstring -> jsstring -> bool)
    (targetText : jsstring) (k : string) (s : Engine) :
  Mapper.getCharacterForKey INSCRIPT_KEY_MAP k AltGr = [] /\
  Mapper.getCharacterForKey INSCRIPT_KEY_MAP k AltGrShift = [] /\
  cells (handleKeyPress normalize compare INSCRIPT_KEY_MAP targetText k AltGr s) = cells s /\
  cells (handleKeyPress normalize compare INSCRIPT_KEY_MAP targetText k AltGrShift s) = cells s.
Proof.
  destruct (INSCRIPT_no_altgr_layer k) as [H1 H2].
  split; [exact H1|]. split; [exact H2|].
  unfold handleKeyPress. rewrite H1, H2.
  destruct (negb (Mapper.isTypeableKey INSCRIPT_KEY_MAP k) || isCompleted normalize targetText s);
    split; reflexivity.
Qed.

(** * Further properties of the typing engine *)

Section EngineRuns.
Variable normalize : jsstring -> jsstring.
Variable compare : jsstring -> jsstring -> bool.
Variable targetText : jsstring.
Variable mode : TypingMode.
Variable duration : option N.

(** What an accepted keystroke does to the cursor, the text and the errors. *)
Lemma press_cells (keyMap : JsMap KeyMapping) (k : string) (modifiers : ModifierState)
    (s : Engine) :
  Mapper.isTypeableKey keyMap k = true ->
  currentIndex s < length (normalizedTarget normalize targetText) ->
  Mapper.getCharacterForKey keyMap k modifiers <> [] ->
  cells (handleKeyPress normalize compare keyMap targetText k modifiers s) =
  (currentIndex s + 1,
   typedText s ++ Mapper.getCharacterForKey keyMap k modifiers,
   errors s ++ mismatches compare (normalizedTarget normalize targetText) (currentIndex s)
                 [Mapper.getCharacterForKey keyMap k modifiers]).
Proof.
  intros Ht Hi Hc. unfold handleKeyPress, isCompleted. rewrite Ht.
  replace (length (normalizedTarget normalize targetText) <=? currentIndex s) with false
    by (symmetry; apply Nat.leb_gt; exact Hi).
  simpl negb. simpl orb. cbv iota.
  destruct (Mapper.getCharacterForKey keyMap k modifiers) as [|c0 char]; [congruence|].
  unfold cells. simpl.
  destruct (charAt (normalizedTarget normalize targetText) (currentIndex s)) as [expected|].
  - destruct (compare (c0 :: char) [expected]); simpl; rewrite ?app_nil_r; reflexivity.
  - reflexivity.
Qed.

Lemma typing_cells (keyMap : JsMap KeyMapping) (strokes : list (string * ModifierState))
    (s : Engine) :
  Forall (fun st => Mapper.isTypeableKey keyMap (fst st) = true /\
                    Mapper.getCharacterForKey keyMap (fst st) (snd st) <> []) strokes ->
  currentIndex s + length strokes <= length (normalizedTarget normalize targetText) ->
  cells (run normalize compare keyMap targetText mode duration
           (List.map (fun st => KeyPress (fst st) (snd st)) strokes) s) =
  (currentIndex s + length strokes,
   typedText s ++ concat (List.map (fun st => Mapper.getCharacterForKey keyMap (fst st) (snd st))
                            strokes),
   errors s ++ mismatches compare (normalizedTarget normalize targetText) (currentIndex s)
                 (List.map (fun st => Mapper.getCharacterForKey keyMap (fst st) (snd st))
                    strokes)).
Proof.
  unfold run. intros Hok. revert s.
  induction Hok as [|[k ms] strokes [Ht Hc] _ IH]; intros s Hlen; simpl in *.
  - unfold cells. rewrite Nat.add_0_r, !app_nil_r. reflexivity.
  - pose proof (press_cells keyMap k ms s Ht ltac:(lia) Hc) as Hp.
    unfold cells in Hp. injection Hp as Hi Hty He.
    rewrite IH by lia. rewrite Hi, Hty, He. simpl. rewrite <- !app_assoc.
    replace (currentIndex s + 1) with (S (currentIndex s)) by lia.
    replace (S (currentIndex s) + length strokes) with (currentIndex s + S (length strokes))
      by lia.
    reflexivity.
Qed.

(** X11.  What a sequence of accepted keystrokes leaves behind.  If every
    key is typeable and resolves to a character, and the keystrokes are not
    more than the target is long, then the cursor is at their number, the
    typed text is the resolved characters one after the other, the errors are
    the positions at which the character did not compare equal to the code
    unit of the target, and the session is completed exactly when the
    keystrokes are as many as the target is long. *)
Theorem typing_records_mismatches (keyMap : JsMap KeyMapping)
    (strokes : list (string * ModifierState)) :
  Forall (fun st => Mapper.isTypeableKey keyMap (fst st) = true /\
                    Mapper.getCharacterForKey keyMap (fst st) (snd st) <> []) strokes ->
  length strokes <= length (normalizedTarget normalize targetText) ->
  let chars := List.map (fun st => Mapper.getCharacterForKey keyMap (fst st) (snd st)) strokes in
  let s := run normalize compare keyMap targetText mode duration
             (List.map (fun st => KeyPress (fst st) (snd st)) strokes) engine_initial in
  currentIndex s = length strokes /\
  typedText s = concat chars /\
  errors s = mismatches compare (normalizedTarget normalize targetText) 0 chars /\
  (isCompleted normalize targetText s = true <->
   length strokes = length (normalizedTarget normalize targetText)).
Proof.
  intros Hok Hlen chars s.
  pose proof (typing_cells keyMap strokes engine_initial Hok Hlen) as H.
  fold s in H. unfold cells in H. simpl in H. injection H as Hi Hty He.
  split; [exact Hi|]. split; [exact Hty|]. split; [exact He|].
  unfold isCompleted. rewrite Hi, Nat.leb_le. lia.
Qed.

Lemma handle_extends (keyMap : JsMap KeyMapping) (e : Event) (s : Engine) :
  e <> Reset ->
  let s' := handle normalize compare keyMap targetText mode duration e s in
  currentIndex s <= currentIndex s' <= currentIndex s + 1 /\
  (exists more, errors s' = errors s ++ more) /\
  (exists more, typedText s' = typedText s ++ more).
Proof.
  assert (Hsame : forall s' : Engine,
             currentIndex s' = currentIndex s -> errors s' = errors s ->
             typedText s' = typedText s ->
             currentIndex s <= currentIndex s' <= currentIndex s + 1 /\
             (exists more, errors s' = errors s ++ more) /\
             (exists more, typedText s' = typedText s ++ more)).
  { intros s' -> -> ->. split; [lia|]. split; exists []; now rewrite app_nil_r. }
  intros Hne. destruct e as [k ms| | |]; simpl.
  - unfold handleKeyPress.
    destruct (negb (Mapper.isTypeableKey keyMap k) || isCompleted normalize targetText s);
      [now apply Hsame|].
    destruct (Mapper.getCharacterForKey keyMap k ms) as [|c0 char];
      [now apply Hsame|].
    simpl. split; [lia|]. split; [|eauto].
    match goal with |- context [if ?b then _ else _] => destruct b end.
    + exists []. now rewrite app_nil_r.
    + eauto.
  - destruct (pendingFinish s); now apply Hsame.
  - destruct (timerDuration mode duration); [|now apply Hsame].
    destruct (running (timer s) && negb (expired (timer s))); now apply Hsame.
  - congruence.
Qed.

(** X12.  Nothing but a reset takes anything back, also when the layout is
    switched in the middle of a session: under any sequence of other events,
    each handled with whatever key map is current, the cursor does not move
    back and moves at most one position per event, and the errors and the
    typed text recorded before stay as they are, in front of what is
    added. *)
Theorem history_is_kept (steps : list (JsMap KeyMapping * Event)) (s : Engine) :
  Forall (fun step => snd step <> Reset) steps ->
  let s' := runWith normalize compare targetText mode duration steps s in
  currentIndex s <= currentIndex s' <= currentIndex s + length steps /\
  (exists more, errors s' = errors s ++ more) /\
  (exists more, typedText s' = typedText s ++ more).
Proof.
  unfold runWith. intros Hsteps. revert s.
  induction Hsteps as [|[keyMap e] steps He _ IH]; intros s; simpl.
  - split; [lia|]. split; exists []; now rewrite app_nil_r.
  - destruct (handle_extends keyMap e s He) as (Hi & [m1 He1] & [m2 Ht1]).
    destruct (IH (handle normalize compare keyMap targetText mode duration e s))
      as (Hi' & [m1' He2] & [m2' Ht2]).
    simpl in Hi', He2, Ht2. split; [lia|]. split.
    + exists (m1 ++ m1'). rewrite He2, He1, app_assoc. reflexivity.
    + exists (m2 ++ m2'). rewrite Ht2, Ht1, app_assoc. reflexivity.
Qed.

Lemma StronglySorted_snoc (l : list nat) (x : nat) :
  StronglySorted lt l -> Forall (fun e => e < x) l -> StronglySorted lt (l ++ [x]).
Proof.
  induction 1 as [|a l Hs IH Ha]; intros Hx; simpl.
  - repeat constructor.
  - inversion Hx as [|? ? Hax Hx']; subst. constructor; [auto|].
    apply Forall_app. split; [exact Ha | repeat constructor; exact Hax].
Qed.

Lemma handle_errors_sorted (keyMap : JsMap KeyMapping) (e : Event) (s : Engine) :
  StronglySorted lt (errors s) /\ Forall (fun x => x < currentIndex s) (errors s) /\
  length (errors s) <= currentIndex s ->
  let s' := handle normalize compare keyMap targetText mode duration e s in
  StronglySorted lt (errors s') /\ Forall (fun x => x < currentIndex s') (errors s') /\
  length (errors s') <= currentIndex s'.
Proof.
  intros (Hs & Hf & Hl). destruct e as [k ms| | |]; simpl.
  - unfold handleKeyPress.
    destruct (negb (Mapper.isTypeableKey keyMap k) || isCompleted normalize targetText s);
      [auto|].
    destruct (Mapper.getCharacterForKey keyMap k ms) as [|c0 char]; [simpl; auto|].
    simpl.
    assert (Hf' : Forall (fun x => x < currentIndex s + 1) (errors s)).
    { eapply List.Forall_impl; [|exact Hf]. simpl. intros; lia. }
    match goal with |- context [if ?b then _ else _] => destruct b end.
    + split; [exact Hs|]. split; [exact Hf' | lia].
    + split; [now apply StronglySorted_snoc|]. split.
      * apply Forall_app. split; [exact Hf' | repeat constructor; lia].
      * rewrite length_app. simpl. lia.
  - destruct (pendingFinish s); simpl; auto.
  - destruct (timerDuration mode duration); [|auto].
    destruct (running (timer s) && negb (expired (timer s))); simpl; auto.
  - split; [constructor|]. split; [constructor | simpl; lia].
Qed.

(** X13.  In every state that a session reaches the recorded error positions
    are strictly increasing, so no position is recorded twice, and they are
    not more than the cursor is far; hence the counts that go into the
    statistics are sound: the correct characters are between zero and the
    characters typed. *)
Theorem errors_increase (keyMap : JsMap KeyMapping) (events : list Event) :
  let s := run normalize compare keyMap targetText mode duration events engine_initial in
  StronglySorted lt (errors s) /\
  length (errors s) <= currentIndex s /\
  (0 <= correctCharacters s <= totalCharactersTyped s)%Z.
Proof.
  intros s.
  assert (Hgen : forall events s0,
             StronglySorted lt (errors s0) /\ Forall (fun x => x < currentIndex s0) (errors s0) /\
             length (errors s0) <= currentIndex s0 ->
             let s1 := run normalize compare keyMap targetText mode duration events s0 in
             StronglySorted lt (errors s1) /\ Forall (fun x => x < currentIndex s1) (errors s1) /\
             length (errors s1) <= currentIndex s1).
  { clear. unfold run. induction events as [|e events IH]; intros s0 H0; simpl; [exact H0|].
    apply IH, handle_errors_sorted, H0. }
  destruct (Hgen events engine_initial) as (Hs & _ & Hl).
  { simpl. split; [constructor|]. split; [constructor | lia]. }
  fold s in Hs, Hl.
  pose proof (inv_typed _ _ _ (run_invariant normalize compare keyMap targetText mode duration
                                 events engine_initial (initial_invariant normalize targetText)))
    as Ht.
  fold s in Ht.
  split; [exact Hs|]. split; [exact Hl|].
  unfold correctCharacters, totalCharactersTyped. lia.
Qed.

(** X14.  Keystrokes that the engine ignores.  Once the session is
    completed no keystroke changes the state any more; and at any time the
    modifier keys, the four control keys and the keys that the layout does
    not map change nothing at all. *)
Theorem ignored_keystrokes (keyMap : JsMap KeyMapping)
    (strokes : list (string * ModifierState)) (s : Engine) :
  isCompleted normalize targetText s = true \/
  Forall (fun st => In (fst st) MODIFIER_KEYS \/ In (fst st) CONTROL_KEYS \/
                    Map_get keyMap (fst st) = None) strokes ->
  run normalize compare keyMap targetText mode duration
    (List.map (fun st => KeyPress (fst st) (snd st)) strokes) s = s.
Proof.
  unfold run. intros H. induction strokes as [|[k ms] strokes IH]; simpl; [reflexivity|].
  assert (Hstep : handleKeyPress normalize compare keyMap targetText k ms s = s).
  { unfold handleKeyPress. destruct H as [Hc | Hall].
    - rewrite Hc, orb_true_r. reflexivity.
    - inversion Hall as [|? ? Hk _]; subst. simpl in Hk.
      assert (Ht : Mapper.isTypeableKey keyMap k = false).
      { unfold Mapper.isTypeableKey. destruct Hk as [Hm | [Hc | Hn]].
        - apply isModifierKey_In in Hm. now rewrite Hm.
        - apply isControlKey_In in Hc. rewrite Hc. now destruct (isModifierKey k).
        - unfold Map_has. rewrite Hn.
          destruct (isModifierKey k); [reflexivity|].
          now destruct (String.eqb k "Backspace" || String.eqb k "Enter" ||
                        String.eqb k "Tab" || String.eqb k "Escape"). }
      rewrite Ht. reflexivity. }
  rewrite Hstep. apply IH.
  destruct H as [Hc | Hall]; [now left | right].
  inversion Hall; assumption.
Qed.

(** X15.  What activates a session: a keystroke on a typeable key while the
    session is not completed, whether or not the key resolves to a character
    under the modifier state.  A typeable key with an empty slot thus
    activates the session and types nothing. *)
Theorem activation_by_typeable_key (keyMap : JsMap KeyMapping) (k : string)
    (modifiers : ModifierState) (s : Engine) :
  let s' := handleKeyPress normalize compare keyMap targetText k modifiers s in
  isActive s' =
    isActive s || (Mapper.isTypeableKey keyMap k && negb (isCompleted normalize targetText s)) /\
  (Mapper.getCharacterForKey keyMap k modifiers = [] -> cells s' = cells s).
Proof.
  unfold handleKeyPress.
  destruct (Mapper.isTypeableKey keyMap k), (isCompleted normalize targetText s); simpl;
    try (split; [now rewrite ?orb_false_r, ?orb_true_r | reflexivity]).
  destruct (Mapper.getCharacterForKey keyMap k modifiers) as [|c0 char]; simpl.
  - split; [now rewrite orb_true_r | reflexivity].
  - split; [now rewrite orb_true_r | discriminate].
Qed.

Lemma handle_cells (keyMap : JsMap KeyMapping) (e : Event) (s1 s2 : Engine) :
  cells s1 = cells s2 ->
  cells (handle normalize compare keyMap targetText mode duration e s1) =
  cells (handle normalize compare keyMap targetText mode duration e s2).
Proof.
  unfold cells. intros H. injection H as Hi Ht He.
  destruct e as [k ms| | |]; simpl.
  - unfold handleKeyPress, isCompleted. rewrite Hi.
    destruct (negb (Mapper.isTypeableKey keyMap k) ||
              (length (normalizedTarget normalize targetText) <=? currentIndex s2));
      [congruence|].
    destruct (Mapper.getCharacterForKey keyMap k ms); simpl;
      rewrite ?Hi, ?Ht, ?He; reflexivity.
  - destruct (pendingFinish s1), (pendingFinish s2); simpl; congruence.
  - destruct (timerDuration mode duration); [|congruence].
    destruct (running (timer s1) && negb (expired (timer s1))),
             (running (timer s2) && negb (expired (timer s2))); simpl; congruence.
  - reflexivity.
Qed.

Lemma handle_keeps_finishes (keyMap : JsMap KeyMapping) (e : Event) (s : Engine) :
  let s' := handle normalize compare keyMap targetText mode duration e s in
  completions s + pendingFinish s <= completions s' + pendingFinish s'.
Proof.
  destruct e as [k ms| | |]; simpl.
  - unfold handleKeyPress.
    destruct (negb (Mapper.isTypeableKey keyMap k) || isCompleted normalize targetText s);
      [lia|].
    destruct (Mapper.getCharacterForKey keyMap k ms); simpl; [lia|].
    destruct (length (normalizedTarget normalize targetText) <=? currentIndex s + 1); lia.
  - destruct (pendingFinish s); simpl; lia.
  - destruct (timerDuration mode duration); [|lia].
    destruct (running (timer s) && negb (expired (timer s))); simpl; lia.
  - lia.
Qed.

(** X16.  After a reset the cursor, the typed text and the errors evolve as
    in a new session, whatever happened before; what a reset does not do is
    cancel a scheduled [finish]: the calls of [finish] made or scheduled
    before never become fewer, through resets and any other events. *)
Theorem reset_starts_over (keyMap : JsMap KeyMapping) (events : list Event) (s : Engine) :
  cells (run normalize compare keyMap targetText mode duration (Reset :: events) s) =
  cells (run normalize compare keyMap targetText mode duration events engine_initial) /\
  completions s + pendingFinish s <=
  completions (run normalize compare keyMap targetText mode duration (Reset :: events) s) +
  pendingFinish (run normalize compare keyMap targetText mode duration (Reset :: events) s).
Proof.
  split.
  - unfold run. simpl.
    assert (Hgen : forall events s1 s2, cells s1 = cells s2 ->
               cells (fold_left (fun s e => handle normalize compare keyMap targetText mode
                                              duration e s) events s1) =
               cells (fold_left (fun s e => handle normalize compare keyMap targetText mode
                                              duration e s) events s2)).
    { clear. induction events as [|e events IH]; intros s1 s2 H; simpl; [exact H|].
      apply IH, handle_cells, H. }
    apply Hgen. reflexivity.
  - unfold run. generalize (Reset :: events) as evs. clear events.
    intros evs. revert s. induction evs as [|e evs IH]; intros s; simpl; [lia|].
    etransitivity; [apply (handle_keeps_finishes keyMap e s)|]. apply IH.
Qed.

(** X17.  The character boxes of the application.  In every state that a
    session reaches each position gets exactly one of the four styles of the
    template: the conditions for typed, error, current and pending exclude
    each other, because an error is only ever recorded behind the cursor. *)
Theorem one_style_per_box (keyMap : JsMap KeyMapping) (events : list Event) (index : nat) :
  let s := run normalize compare keyMap targetText mode duration events engine_initial in
  exists style, App_boxStyles (currentIndex s) (errors s) index = [style].
Proof.
  intros s.
  pose proof (inv_errors _ _ _ (run_invariant normalize compare keyMap targetText mode duration
                                  events engine_initial (initial_invariant normalize targetText)))
    as He.
  fold s in He. unfold App_boxStyles.
  destruct (existsb (Nat.eqb index) (errors s)) eqn:Eerr.
  - apply existsb_exists in Eerr as (x & Hin & Heq). apply Nat.eqb_eq in Heq. subst x.
    pose proof (proj1 (List.Forall_forall _ _) He _ Hin) as Hlt. simpl in Hlt.
    replace (index <? currentIndex s) with true by (symmetry; apply Nat.ltb_lt; lia).
    replace (index =? currentIndex s) with false by (symmetry; apply Nat.eqb_neq; lia).
    simpl. eauto.
  - destruct (index <? currentIndex s) eqn:Elt; simpl.
    + apply Nat.ltb_lt in Elt.
      replace (index =? currentIndex s) with false by (symmetry; apply Nat.eqb_neq; lia).
      simpl. eauto.
    + destruct (index =? currentIndex s); simpl; eauto.
Qed.
End EngineRuns.

Lemma typing_records_mismatches_witness :
  let strokes := [("KeyV", Normal); ("KeyC", Shift)] in
  let chars := List.map (fun st => Mapper.getCharacterForKey KEY_MAP (fst st) (snd st)) strokes in
  let s := run normalizeHindiText compareHindiChars KEY_MAP (u "अब") learn None
             (List.map (fun st => KeyPress (fst st) (snd st)) strokes) engine_initial in
  currentIndex s = length strokes /\
  typedText s = concat chars /\
  errors s = mismatches compareHindiChars (normalizedTarget normalizeHindiText (u "अब")) 0 chars /\
  (isCompleted normalizeHindiText (u "अब") s = true <->
   length strokes = length (normalizedTarget normalizeHindiText (u "अब"))).
Proof.
  apply (typing_records_mismatches normalizeHindiText compareHindiChars (u "अब") learn None
           KEY_MAP [("KeyV", Normal); ("KeyC", Shift)]).
  - repeat constructor; vm_compute; discriminate.
  - vm_compute. lia.
Defined.

Lemma history_is_kept_witness :
  let steps := [(KEY_MAP, KeyPress "KeyE" Shift); (INSCRIPT_KEY_MAP, KeyPress "KeyE" Shift);
                (INSCRIPT_KEY_MAP, FinishTimeout)] in
  let s' := runWith normalizeHindiText compareHindiChars (u "आआ") learn None steps
              engine_initial in
  currentIndex engine_initial <= currentIndex s' <= currentIndex engine_initial + length steps /\
  (exists more, errors s' = errors engine_initial ++ more) /\
  (exists more, typedText s' = typedText engine_initial ++ more).
Proof.
  apply (history_is_kept normalizeHindiText compareHindiChars (u "आआ") learn None
           [(KEY_MAP, KeyPress "KeyE" Shift); (INSCRIPT_KEY_MAP, KeyPress "KeyE" Shift);
            (INSCRIPT_KEY_MAP, FinishTimeout)] engine_initial).
  repeat constructor; discriminate.
Defined.

Lemma ignored_keystrokes_witness :
  run normalizeHindiText compareHindiChars KEY_MAP (u "अ") learn None
    (List.map (fun st => KeyPress (fst st) (snd st))
       [("ShiftLeft", Normal); ("Enter", Normal); ("F5", Normal)]) engine_initial
  = engine_initial.
Proof.
  apply (ignored_keystrokes normalizeHindiText compareHindiChars (u "अ") learn None KEY_MAP
           [("ShiftLeft", Normal); ("Enter", Normal); ("F5", Normal)] engine_initial).
  right. repeat constructor; simpl; tauto.
Defined.

(** * The guidance of the keyboard and of the application *)

Lemma hit_of_resolution (layout : KeyboardLayout) (k : string)
    (modifierState : ModifierState) (c0 : N) (r : jsstring) :
  Mapper.getCharacterForKey (keyMapOf layout) k modifierState = c0 :: r ->
  exists h, In h (Mapper.findKeysForCharacter (keyMapOf layout) (c0 :: r)) /\
            hit_key h = k /\ hit_modifierState h = modifierState.
Proof.
  intros Hres. unfold Mapper.getCharacterForKey in Hres.
  destruct (Map_get (keyMapOf layout) k) as [km|] eqn:Hget; [|discriminate].
  assert (Hkm : In km (Map_values (keyMapOf layout))) by (eapply Map_get_values, Hget).
  assert (Hk : key km = k).
  { destruct (keyMapOf_wf layout) as [_ Hall].
    assert (Hin : In (k, km) (keyMapOf layout)).
    { clear -Hget. induction (keyMapOf layout) as [|[k' v'] m IH]; simpl in *; [discriminate|].
      destruct (String.eqb_spec k' k) as [->|Hne]; [left; congruence | right; auto]. }
    exact (proj1 (List.Forall_forall _ _) Hall _ Hin). }
  exists (hit km modifierState). split; [|split; [exact Hk | reflexivity]].
  rewrite findKeysForCharacter_flat_map. apply in_flat_map. exists km.
  split; [exact Hkm|]. apply In_hitsOf. eauto.
Qed.

Lemma resolution_of_hit (layout : KeyboardLayout) (character : jsstring) (h : KeyHit) :
  In h (Mapper.findKeysForCharacter (keyMapOf layout) character) ->
  Mapper.getCharacterForKey (keyMapOf layout) (hit_key h) (hit_modifierState h) = character.
Proof.
  rewrite findKeysForCharacter_flat_map. intros Hin.
  apply in_flat_map in Hin as (km & Hkm & Hh).
  apply In_hitsOf in Hh as (ms & Hs & ->). simpl.
  apply (Map_wf_values _ _ (keyMapOf_wf layout)) in Hkm.
  unfold Mapper.getCharacterForKey. rewrite Hkm. exact Hs.
Qed.

(** X18.  The key that the virtual keyboard marks as next is right: pressed
    under the current modifier state it resolves to the next character; and
    when no key is marked, no key of the layout resolves to that character
    under the current modifier state. *)
Theorem nextKey_types_next_character (layout : KeyboardLayout)
    (modifierState : ModifierState) (nextCharacter : jsstring) :
  nextCharacter <> [] ->
  match VirtualKeyboard_nextKey (keyMapOf layout) modifierState (Some nextCharacter) with
  | Some k => Mapper.getCharacterForKey (keyMapOf layout) k modifierState = nextCharacter
  | None => forall k, Mapper.getCharacterForKey (keyMapOf layout) k modifierState <> nextCharacter
  end.
Proof.
  intros Hne. destruct nextCharacter as [|c0 r]; [congruence|].
  unfold VirtualKeyboard_nextKey, VirtualKeyboard_nextKeyInfo.
  destruct (List.find _ _) as [h|] eqn:Ef; simpl.
  - apply find_some in Ef as [Hin Hms]. apply bool_decide_eq_true in Hms.
    rewrite <- Hms. now apply resolution_of_hit.
  - intros k Hres. apply hit_of_resolution in Hres as (h & Hin & _ & Hms).
    pose proof (find_none _ _ Ef h Hin) as Hno. simpl in Hno.
    apply bool_decide_eq_false in Hno. contradiction.
Qed.

Lemma nextKey_types_next_character_witness :
  match VirtualKeyboard_nextKey (keyMapOf REMINGTON_GAIL_LAYOUT) Shift (Some (u "फ")) with
  | Some k => Mapper.getCharacterForKey (keyMapOf REMINGTON_GAIL_LAYOUT) k Shift = u "फ"
  | None => forall k, Mapper.getCharacterForKey (keyMapOf REMINGTON_GAIL_LAYOUT) k Shift <> u "फ"
  end.
Proof.
  apply (nextKey_types_next_character REMINGTON_GAIL_LAYOUT Shift (u "फ")).
  vm_compute. discriminate.
Defined.

Lemma filter_key_unique (l : list KeyMapping) (km : KeyMapping) :
  List.NoDup (List.map key l) -> In km l ->
  List.filter (fun x => bool_decide (Some (key km) = Some (key x))) l = [km].
Proof.
  induction l as [|x l IH]; simpl; [tauto|].
  intros Hnd Hin. inversion Hnd as [|? ? Hnotin Hnd']; subst.
  destruct Hin as [->|Hin].
  - rewrite bool_decide_true by reflexivity. f_equal.
    clear IH Hnd Hnd'. induction l as [|y l IH]; simpl; [reflexivity|].
    simpl in Hnotin. rewrite bool_decide_false.
    + apply IH. tauto.
    + intros [= Heq]. apply Hnotin. left. congruence.
  - rewrite bool_decide_false.
    + now apply IH.
    + intros [= Heq]. apply Hnotin. rewrite <- Heq. now apply in_map.
Qed.

(** X19.  On a layout whose keys are distinct the virtual keyboard marks
    exactly one key when some key resolves to the next character under the
    current modifier state, and no key otherwise. *)
Theorem one_key_is_marked (layout : KeyboardLayout) (modifierState : ModifierState)
    (nextCharacter : option jsstring) :
  List.NoDup (List.map key (concat (rows layout))) ->
  length (VirtualKeyboard_highlighted layout modifierState nextCharacter) =
  match VirtualKeyboard_nextKey (keyMapOf layout) modifierState nextCharacter with
  | Some _ => 1
  | None => 0
  end.
Proof.
  intros Hnd. unfold VirtualKeyboard_highlighted.
  destruct (VirtualKeyboard_nextKey (keyMapOf layout) modifierState nextCharacter)
    as [k|] eqn:En.
  - unfold VirtualKeyboard_nextKey, VirtualKeyboard_nextKeyInfo in En.
    destruct nextCharacter as [[|c0 r]|]; try discriminate.
    destruct (List.find _ _) as [h|] eqn:Ef; [|discriminate].
    simpl in En. injection En as <-.
    apply find_some in Ef as [Hin _].
    rewrite findKeysForCharacter_flat_map, (Map_values_distinct _ Hnd) in Hin.
    apply in_flat_map in Hin as (km & Hkm & Hh).
    apply In_hitsOf in Hh as (ms & _ & ->). simpl.
    rewrite (filter_key_unique _ km Hnd Hkm). reflexivity.
  - clear Hnd. induction (concat (rows layout)) as [|x l IH]; [reflexivity|].
    cbn [List.filter]. rewrite bool_decide_false by discriminate. exact IH.
Qed.

Lemma one_key_is_marked_witness :
  length (VirtualKeyboard_highlighted INSCRIPT_LAYOUT Normal (Some (u "क"))) =
  match VirtualKeyboard_nextKey (keyMapOf INSCRIPT_LAYOUT) Normal (Some (u "क")) with
  | Some _ => 1
  | None => 0
  end.
Proof.
  apply (one_key_is_marked INSCRIPT_LAYOUT Normal (Some (u "क"))).
  apply INSCRIPT_keys_distinct.
Defined.

(** X20.  The key that the application points the hands at.  When there is
    one, its mapping is in the key map and resolves to the code unit of the
    target at the cursor under the modifier state it is reported with, and
    that state is the current one whenever the current one has a candidate.
    There is none only past the end of the target or when no slot of the key
    map holds that code unit. *)
Theorem App_nextKeyInfo_points_right (keyMap : JsMap KeyMapping)
    (modifierState : ModifierState) (targetText : jsstring) (currentIndex_ : nat) :
  match App_nextKeyInfo keyMap modifierState targetText currentIndex_ with
  | Some h =>
    exists c, charAt targetText currentIndex_ = Some c /\
              In (hit_keyMapping h) (Map_values keyMap) /\
              slot (hit_keyMapping h) (hit_modifierState h) = [c] /\
              ((exists h', In h' (Mapper.findKeysForCharacter keyMap [c]) /\
                           hit_modifierState h' = modifierState) ->
               hit_modifierState h = modifierState)
  | None =>
    length targetText <= currentIndex_ \/
    exists c, charAt targetText currentIndex_ = Some c /\
              Mapper.findKeysForCharacter keyMap [c] = []
  end.
Proof.
  unfold App_nextKeyInfo, App_nextChar, charAt.
  destruct (nth_error targetText currentIndex_) as [c|] eqn:Ec.
  - assert (Hhit : forall h, In h (Mapper.findKeysForCharacter keyMap [c]) ->
                             In (hit_keyMapping h) (Map_values keyMap) /\
                             slot (hit_keyMapping h) (hit_modifierState h) = [c]).
    { intros h Hin. rewrite findKeysForCharacter_flat_map in Hin.
      apply in_flat_map in Hin as (km & Hkm & Hh).
      apply In_hitsOf in Hh as (ms & Hs & ->). simpl. auto. }
    destruct (List.find _ _) as [h|] eqn:Ef.
    + apply find_some in Ef as [Hin Hms]. apply bool_decide_eq_true in Hms.
      exists c. destruct (Hhit h Hin). auto.
    + destruct (Mapper.findKeysForCharacter keyMap [c]) as [|h hs] eqn:Eh; simpl.
      * right. eauto.
      * exists c. destruct (Hhit h (or_introl eq_refl)) as [H1 H2].
        split; [reflexivity|]. split; [exact H1|]. split; [exact H2|].
        intros (h' & Hin' & Hms'). rewrite ?Eh in Hin'.
        pose proof (find_none _ _ Ef h' Hin') as Hno.
        simpl in Hno. apply bool_decide_eq_false in Hno. contradiction.
  - left. now apply nth_error_None.
Qed.

(** X21.  A key cap shows what the key types: on a layout whose keys are
    distinct the character on the cap of a key is the character that
    [getCharacterForKey] resolves the key to under the same modifier state,
    and the cap shows a no-break space exactly where the combination is not
    valid. *)
Theorem key_cap_shows_resolution (layout : KeyboardLayout) (mapping : KeyMapping)
    (modifierState : ModifierState) :
  List.NoDup (List.map key (concat (rows layout))) ->
  In mapping (concat (rows layout)) ->
  Key_displayChar mapping modifierState =
    Mapper.getCharacterForKey (keyMapOf layout) (key mapping) modifierState /\
  Key_text mapping modifierState =
    if Mapper.isValidKeyCombination (keyMapOf layout) (key mapping) modifierState
    then Mapper.getCharacterForKey (keyMapOf layout) (key mapping) modifierState
    else [0xA0]%N.
Proof.
  intros Hnd Hin.
  assert (Hget : Map_get (keyMapOf layout) (key mapping) = Some mapping)
    by (apply keyMapOf_get; tauto).
  assert (Hd : Key_displayChar mapping modifierState =
               Mapper.getCharacterForKey (keyMapOf layout) (key mapping) modifierState).
  { unfold Mapper.getCharacterForKey. rewrite Hget. destruct modifierState; reflexivity. }
  split; [exact Hd|].
  unfold Key_text, Mapper.isValidKeyCombination. rewrite Hd.
  destruct (Mapper.getCharacterForKey (keyMapOf layout) (key mapping) modifierState);
    reflexivity.
Qed.

Lemma key_cap_shows_resolution_witness :
  let mapping := KM "KeyE" (u "म") (u "म्") (u "ें") (u "ैं") 2 LeftHand "E" in
  Key_displayChar mapping AltGr =
    Mapper.getCharacterForKey (keyMapOf REMINGTON_GAIL_LAYOUT) (key mapping) AltGr /\
  Key_text mapping AltGr =
    if Mapper.isValidKeyCombination (keyMapOf REMINGTON_GAIL_LAYOUT) (key mapping) AltGr
    then Mapper.getCharacterForKey (keyMapOf REMINGTON_GAIL_LAYOUT) (key mapping) AltGr
    else [0xA0]%N.
Proof.
  apply (key_cap_shows_resolution REMINGTON_GAIL_LAYOUT
           (KM "KeyE" (u "म") (u "म्") (u "ें") (u "ैं") 2 LeftHand "E") AltGr).
  - apply REMINGTON_GAIL_keys_distinct.
  - vm_compute. do 17 right. left. reflexivity.
Defined.

(** X22.  The hands of the application.  For every key of the available
    layouts exactly one finger of the two hand drawings is filled; it is a
    finger of the left drawing exactly when the table puts the key on the left
    hand, except for the space bar, which the tables put on the left hand
    with a finger of the right. *)
Theorem one_finger_is_filled (layoutId : string) (layout : KeyboardLayout)
    (mapping : KeyMapping) :
  layoutOf AVAILABLE_LAYOUTS layoutId = Some layout ->
  In mapping (concat (rows layout)) ->
  length (App_greenFingers App_leftHand (Some mapping) ++
          App_greenFingers App_rightHand (Some mapping)) = 1 /\
  (key mapping <> "Space" ->
   (App_greenFingers App_leftHand (Some mapping) <> [] <-> hand mapping = LeftHand)) /\
  (key mapping = "Space" ->
   hand mapping = LeftHand /\ App_greenFingers App_leftHand (Some mapping) = []).
Proof.
  intros Hl Hin.
  set (check := fun m : KeyMapping =>
         (length (App_greenFingers App_leftHand (Some m) ++
                  App_greenFingers App_rightHand (Some m)) =? 1) &&
         (if String.eqb (key m) "Space"
          then bool_decide (hand m = LeftHand) &&
               bool_decide (App_greenFingers App_leftHand (Some m) = [])
          else Bool.eqb (negb (bool_decide (App_greenFingers App_leftHand (Some m) = [])))
                        (bool_decide (hand m = LeftHand)))).
  assert (Hall : forallb check (concat (rows layout)) = true).
  { apply layoutOf_AVAILABLE in Hl as [[_ ->] | [_ ->]]; vm_compute; reflexivity. }
  pose proof (proj1 (forallb_forall _ _) Hall mapping Hin) as Hc.
  unfold check in Hc. apply andb_true_iff in Hc as [H1 H2].
  apply Nat.eqb_eq in H1. split; [exact H1|].
  destruct (String.eqb_spec (key mapping) "Space") as [Heq|Hne].
  - apply andb_true_iff in H2 as [Ha Hb].
    apply bool_decide_eq_true in Ha, Hb. split; [congruence | auto].
  - split; [|congruence]. intros _.
    apply Bool.eqb_prop in H2.
    destruct (bool_decide (App_greenFingers App_leftHand (Some mapping) = [])) eqn:Eg;
      simpl in H2; symmetry in H2.
    + apply bool_decide_eq_true in Eg. apply bool_decide_eq_false in H2. tauto.
    + apply bool_decide_eq_false in Eg. apply bool_decide_eq_true in H2. tauto.
Qed.

Lemma one_finger_is_filled_witness :
  let mapping := KM "Space" (u " ") (u " ") (u " ") (u " ") 4 LeftHand "Space" in
  length (App_greenFingers App_leftHand (Some mapping) ++
          App_greenFingers App_rightHand (Some mapping)) = 1 /\
  (key mapping <> "Space" ->
   (App_greenFingers App_leftHand (Some mapping) <> [] <-> hand mapping = LeftHand)) /\
  (key mapping = "Space" ->
   hand mapping = LeftHand /\ App_greenFingers App_leftHand (Some mapping) = []).
Proof.
  apply (one_finger_is_filled "remington-gail" REMINGTON_GAIL_LAYOUT
           (KM "Space" (u " ") (u " ") (u " ") (u " ") 4 LeftHand "Space")).
  - reflexivity.
  - vm_compute. do 55 right. left. reflexivity.
Defined.

(** * Persistence of the selection *)

(** X23.  The selection survives a reload: once the effect has stored the
    identifier of a known layout, a provider that starts from that storage
    selects the same identifier, whatever its default is, and provides that
    layout. *)
Theorem selection_survives_reload (inherited : string -> bool) (layoutId : string)
    (layout : KeyboardLayout) (defaultLayout : string) (stored : option string) :
  layoutOf AVAILABLE_LAYOUTS layoutId = Some layout ->
  let restored :=
    initialLayoutId inherited (ReadValue (persistLayout layoutId false stored)) defaultLayout in
  restored = layoutId /\
  exists value, KeyboardLayoutProvider restored = Provides value /\ currentLayout value = layout.
Proof.
  intros Hl. simpl. unfold hasProperty. rewrite Hl.
  assert (Hlen : (String.length layoutId =? 0) = false).
  { apply layoutOf_AVAILABLE in Hl as [[-> _] | [-> _]]; reflexivity. }
  rewrite Hlen. simpl. split; [reflexivity|].
  unfold KeyboardLayoutProvider. rewrite Hl. eexists. split; reflexivity.
Qed.

Lemma selection_survives_reload_witness :
  let restored :=
    initialLayoutId (fun _ => false) (ReadValue (persistLayout "inscript" false None))
      "remington-gail" in
  restored = "inscript" /\
  exists value, KeyboardLayoutProvider restored = Provides value /\
                currentLayout value = INSCRIPT_LAYOUT.
Proof.
  apply (selection_survives_reload (fun _ => false) "inscript" INSCRIPT_LAYOUT
           "remington-gail" None).
  reflexivity.
Defined.

(** X24.  With a known default the provider starts on a layout that it can
    provide, whether the storage throws, is empty, or holds an identifier
    that is not known, as long as that identifier is not the name of a
    property that the registry object inherits. *)
Theorem initial_layout_is_provided (inherited : string -> bool) (read : StorageRead)
    (defaultLayout : string) (layout : KeyboardLayout) :
  layoutOf AVAILABLE_LAYOUTS defaultLayout = Some layout ->
  (forall saved, read = ReadValue (Some saved) ->
                 layoutOf AVAILABLE_LAYOUTS saved = None -> inherited saved = false) ->
  exists value,
    KeyboardLayoutProvider (initialLayoutId inherited read defaultLayout) = Provides value.
Proof.
  intros Hd Hinh.
  assert (Hdef : exists value, KeyboardLayoutProvider defaultLayout = Provides value).
  { unfold KeyboardLayoutProvider. rewrite Hd. eauto. }
  destruct read as [[saved|]|]; simpl; try exact Hdef.
  destruct (String.length saved =? 0); simpl; [exact Hdef|].
  unfold hasProperty.
  destruct (layoutOf AVAILABLE_LAYOUTS saved) as [l|] eqn:El.
  - unfold KeyboardLayoutProvider. rewrite El. eauto.
  - rewrite (Hinh saved eq_refl El). exact Hdef.
Qed.

Lemma initial_layout_is_provided_witness :
  exists value,
    KeyboardLayoutProvider
      (initialLayoutId (fun name_ => String.eqb name_ "toString")
         (ReadValue (Some "dvorak")) "remington-gail") = Provides value.
Proof.
  apply (initial_layout_is_provided (fun name_ => String.eqb name_ "toString")
           (ReadValue (Some "dvorak")) "remington-gail" REMINGTON_GAIL_LAYOUT).
  - reflexivity.
  - intros saved [= <-] _. reflexivity.
Defined.

(** X25.  A stored name that the registry object inherits passes the test of
    the initializer although it is no layout: the provider selects it, and
    evaluating the provider throws. *)
Theorem inherited_name_is_selected (inherited : string -> bool) (saved defaultLayout : string) :
  String.length saved <> 0 ->
  layoutOf AVAILABLE_LAYOUTS saved = None ->
  inherited saved = true ->
  initialLayoutId inherited (ReadValue (Some saved)) defaultLayout = saved /\
  KeyboardLayoutProvider (initialLayoutId inherited (ReadValue (Some saved)) defaultLayout)
  = ThrowsTypeError.
Proof.
  intros Hlen Hl Hi. simpl. unfold hasProperty. rewrite Hl, Hi.
  replace (String.length saved =? 0) with false by (symmetry; now apply Nat.eqb_neq).
  simpl. split; [reflexivity|]. unfold KeyboardLayoutProvider. rewrite Hl. reflexivity.
Qed.

Lemma inherited_name_is_selected_witness :
  initialLayoutId (fun name_ => String.eqb name_ "toString")
    (ReadValue (Some "toString")) "remington-gail" = "toString" /\
  KeyboardLayoutProvider
    (initialLayoutId (fun name_ => String.eqb name_ "toString")
       (ReadValue (Some "toString")) "remington-gail") = ThrowsTypeError.
Proof.
  apply (inherited_name_is_selected (fun name_ => String.eqb name_ "toString")
           "toString" "remington-gail").
  - simpl. lia.
  - reflexivity.
  - reflexivity.
Defined.

(** * Typing by the guidance *)

Lemma guided_cells (normalize : jsstring -> jsstring) (compare : jsstring -> jsstring -> bool)
    (targetText : jsstring) (mode : TypingMode) (duration : option N)
    (layout : KeyboardLayout) (strokes : list (string * ModifierState)) (rest : jsstring) :
  (forall x, compare x x = true) ->
  Forall2 (fun st c =>
             VirtualKeyboard_nextKey (keyMapOf layout) (snd st) (Some [c]) = Some (fst st) /\
             Mapper.isTypeableKey (keyMapOf layout) (fst st) = true) strokes rest ->
  forall (typed : jsstring) (s : Engine),
    normalizedTarget normalize targetText = typed ++ rest ->
    currentIndex s = length typed ->
    cells (run normalize compare (keyMapOf layout) targetText mode duration
             (List.map (fun st => KeyPress (fst st) (snd st)) strokes) s) =
    (length (typed ++ rest), typedText s ++ rest, errors s).
Proof.
  intros Hrefl Hguide. unfold run.
  induction Hguide as [|[k ms] c strokes rest [Hnext Htype] _ IH]; intros typed s Ht Hi; simpl.
  - unfold cells. rewrite !app_nil_r, Hi. reflexivity.
  - cbn [fst snd] in Hnext, Htype.
    assert (Hres : Mapper.getCharacterForKey (keyMapOf layout) k ms = [c]).
    { unfold VirtualKeyboard_nextKey, VirtualKeyboard_nextKeyInfo in Hnext.
      destruct (List.find _ _) as [h|] eqn:Ef; [|discriminate].
      simpl in Hnext. injection Hnext as <-.
      apply find_some in Ef as [Hin Hms]. apply bool_decide_eq_true in Hms.
      rewrite <- Hms. now apply resolution_of_hit. }
    assert (Hlt : currentIndex s < length (normalizedTarget normalize targetText)).
    { rewrite Ht, Hi, length_app. simpl. lia. }
    pose proof (press_cells normalize compare targetText (keyMapOf layout) k ms s Htype Hlt
                  ltac:(rewrite Hres; discriminate)) as Hp.
    rewrite Hres in Hp. simpl in Hp.
    assert (Hat : charAt (normalizedTarget normalize targetText) (currentIndex s) = Some c).
    { unfold charAt. rewrite Ht, Hi, nth_error_app2 by lia. rewrite Nat.sub_diag. reflexivity. }
    rewrite Hat, Hrefl in Hp. simpl in Hp. rewrite app_nil_r in Hp.
    unfold cells in Hp. injection Hp as Hi' Hty' He'.
    rewrite (IH (typed ++ [c])).
    + rewrite Hty', He', <- !app_assoc. reflexivity.
    + rewrite Ht, <- app_assoc. reflexivity.
    + rewrite Hi', Hi, length_app. simpl. reflexivity.
Qed.

Lemma guided_by_App (layout : KeyboardLayout) (strokes : list (string * ModifierState))
    (targetText : jsstring) :
  length strokes = length targetText ->
  (forall i st, nth_error strokes i = Some st ->
     VirtualKeyboard_nextKey (keyMapOf layout) (snd st) (App_nextChar targetText i)
       = Some (fst st) /\
     Mapper.isTypeableKey (keyMapOf layout) (fst st) = true) ->
  Forall2 (fun st c =>
             VirtualKeyboard_nextKey (keyMapOf layout) (snd st) (Some [c]) = Some (fst st) /\
             Mapper.isTypeableKey (keyMapOf layout) (fst st) = true) strokes targetText.
Proof.
  revert targetText. induction strokes as [|st strokes IH]; intros [|c rest] Hlen Hall;
    try discriminate; constructor.
  - exact (Hall 0 st eq_refl).
  - apply IH; [simpl in Hlen; lia|].
    intros i st' Hi. exact (Hall (S i) st' Hi).
Qed.

(** X26.  Whoever follows the keyboard that the application shows makes no
    error, on a target that normalization leaves as it is.  If each keystroke
    is the key that the virtual keyboard marks for the next character of the
    application, the code unit of the target text at the position of the
    keystroke, under the modifier state held, and that key is typeable, and a
    character compares equal to itself, then after the last keystroke the
    typed text is the target, no error is recorded, and the session is
    completed. *)
Theorem guided_typing_is_error_free
    (normalize : jsstring -> jsstring) (compare : jsstring -> jsstring -> bool)
    (targetText : jsstring) (mode : TypingMode) (duration : option N)
    (layout : KeyboardLayout) (strokes : list (string * ModifierState)) :
  normalize targetText = targetText ->
  (forall x, compare x x = true) ->
  length strokes = length targetText ->
  (forall i st, nth_error strokes i = Some st ->
     VirtualKeyboard_nextKey (keyMapOf layout) (snd st) (App_nextChar targetText i)
       = Some (fst st) /\
     Mapper.isTypeableKey (keyMapOf layout) (fst st) = true) ->
  let s := run normalize compare (keyMapOf layout) targetText mode duration
             (List.map (fun st => KeyPress (fst st) (snd st)) strokes) engine_initial in
  typedText s = targetText /\
  errors s = [] /\
  isCompleted normalize targetText s = true.
Proof.
  intros Hnorm Hrefl Hlen Hguide s.
  assert (Ht : normalizedTarget normalize targetText = [] ++ targetText)
    by (unfold normalizedTarget; rewrite Hnorm; reflexivity).
  pose proof (guided_cells normalize compare targetText mode duration layout strokes
                targetText Hrefl (guided_by_App layout strokes targetText Hlen Hguide)
                [] engine_initial Ht eq_refl) as H.
  fold s in H. unfold cells in H. simpl in H. injection H as Hi Hty He.
  split; [exact Hty|]. split; [exact He|].
  unfold isCompleted, normalizedTarget. rewrite Hnorm, Hi. apply Nat.leb_refl.
Qed.

Lemma guided_typing_is_error_free_witness :
  let s := run normalizeHindiText compareHindiChars (keyMapOf REMINGTON_GAIL_LAYOUT) (u "अब ")
             learn None
             (List.map (fun st => KeyPress (fst st) (snd st))
                [("KeyV", Normal); ("KeyC", Normal); ("Space", Shift)]) engine_initial in
  typedText s = u "अब " /\
  errors s = [] /\
  isCompleted normalizeHindiText (u "अब ") s = true.
Proof.
  apply (guided_typing_is_error_free normalizeHindiText compareHindiChars (u "अब ") learn None
           REMINGTON_GAIL_LAYOUT [("KeyV", Normal); ("KeyC", Normal); ("Space", Shift)]).
  - vm_compute. reflexivity.
  - intros x. unfold compareHindiChars, jsstring_eqb. apply bool_decide_eq_true. reflexivity.
  - reflexivity.
  - intros i st Hi.
    destruct i as [|[|[|i]]]; simpl in Hi; try (destruct i; discriminate);
      injection Hi as <-; vm_compute; split; reflexivity.
Defined.

(** The proviso is needed: the application marks keys for the target text as
    it is given, the engine compares with the normalized target.  For NA
    followed by a nukta, which normalization composes, the key marked first
    is KeyU, and the engine records it as an error. *)
Lemma guidance_on_unnormalized_target :
  normalizeHindiText [0x928; 0x93C]%N = [0x929]%N /\
  VirtualKeyboard_nextKey KEY_MAP Normal (App_nextChar [0x928; 0x93C]%N 0) = Some "KeyU" /\
  errors (handleKeyPress normalizeHindiText compareHindiChars KEY_MAP [0x928; 0x93C]%N
            "KeyU" Normal engine_initial) = [0].
Proof. repeat split; vm_compute; reflexivity. Qed.
